(** * goflow: the expression resolver, value conversions, URN lists,
      the name modifier and the webhook classification

    A shallow embedding of the Go sources and the properties proved about
    them.  Go strings are byte sequences and are modelled as [string]
    (a list of 8-bit [ascii]); Go [int] is the 64-bit signed integer and is
    modelled as [Z] with its range written out where the code depends on it;
    a panic is an explicit outcome, never a missing case. *)

From Stdlib Require Import ZArith List String Ascii Bool Lia.
From Stdlib Require Import Permutation Sorted.
From Stdlib Require OrderedTypeEx.
Import ListNotations.

Set Warnings "-register-all".

Open Scope string_scope.
Open Scope Z_scope.

(** ** Go primitives used by the sources *)

Module Go.

(** The bounds of Go's integer types. *)
Definition MinInt32 : Z := - 2 ^ 31.
Definition MaxInt32 : Z := 2 ^ 31 - 1.
Definition MinInt64 : Z := - 2 ^ 63.
Definition MaxInt64 : Z := 2 ^ 63 - 1.

(** What an integer becomes when it is narrowed to an [int64]: its low 64
    bits, read in two's complement. *)
Definition int64 (z : Z) : Z := (z + 2 ^ 63) mod 2 ^ 64 - 2 ^ 63.

(** [len(s)] as an [int]. *)
Definition len (s : string) : Z := Z.of_nat (String.length s).

(** [s[lo:hi]] and [s[lo:]] for [0 <= lo <= hi <= len(s)]. *)
Definition slice (s : string) (lo hi : Z) : string :=
  String.substring (Z.to_nat lo) (Z.to_nat (hi - lo)) s.

Fixpoint drop (n : nat) (s : string) : string :=
  match n, s with
  | O, _ => s
  | S _, EmptyString => EmptyString
  | S n', String _ s' => drop n' s'
  end.

Definition sliceFrom (s : string) (lo : Z) : string := drop (Z.to_nat lo) s.

(** The double quote character, byte 34. *)
Definition dquote : ascii := ascii_of_nat 34.

(** [strings.Trim(s, cutset)] for a cutset of one ASCII character:
    every leading and every trailing [c] is removed. *)
Fixpoint trimLeft (c : ascii) (s : string) : string :=
  match s with
  | String a s' => if Ascii.eqb a c then trimLeft c s' else s
  | EmptyString => EmptyString
  end.

Fixpoint trimRight (c : ascii) (s : string) : string :=
  match s with
  | String a s' =>
      match trimRight c s' with
      | EmptyString => if Ascii.eqb a c then EmptyString else String a EmptyString
      | t => String a t
      end
  | EmptyString => EmptyString
  end.

Definition Trim (s : string) (c : ascii) : string := trimRight c (trimLeft c s).

(** Decimal digits, for [strconv.Atoi] and the [%d] verb. *)
Definition digitOf (c : ascii) : option Z :=
  let n := Z.of_nat (nat_of_ascii c) in
  if (48 <=? n) && (n <=? 57) then Some (n - 48) else None.

Fixpoint parseDigits (acc : Z) (s : string) : option Z :=
  match s with
  | EmptyString => Some acc
  | String c s' =>
      match digitOf c with
      | Some d => parseDigits (acc * 10 + d) s'
      | None => None
      end
  end.

(** [strconv.Atoi]: an optional sign, then one or more decimal digits (no
    underscores in base 10), and a value that fits the 64-bit [int];
    anything else is an error, [None] here. *)
Definition atoiDigits (neg : bool) (ds : string) : option Z :=
  match ds with
  | EmptyString => None
  | _ =>
      match parseDigits 0 ds with
      | Some n =>
          let v := if neg then - n else n in
          if (MinInt64 <=? v) && (v <=? MaxInt64) then Some v else None
      | None => None
      end
  end.

Definition Atoi (s : string) : option Z :=
  match s with
  | EmptyString => None
  | String c s' =>
      if Ascii.eqb c "-" then atoiDigits true s'
      else if Ascii.eqb c "+" then atoiDigits false s'
      else atoiDigits false s
  end.

(** The [%d] verb of [fmt]: decimal digits with a leading [-] for negatives. *)
Definition digitChar (d : Z) : ascii := ascii_of_nat (Z.to_nat (48 + d)).

Fixpoint digitsOf (fuel : nat) (n : Z) (acc : string) : string :=
  match fuel with
  | O => acc
  | S fuel' =>
      let acc' := String (digitChar (n mod 10)) acc in
      if n <? 10 then acc' else digitsOf fuel' (n / 10) acc'
  end.

Definition Itoa (n : Z) : string :=
  let a := Z.abs n in
  let ds := digitsOf (S (Z.to_nat (Z.log2 a))) a EmptyString in
  if n <? 0 then String "-" ds else ds.

(** What a failed run-time check or an explicit [panic] aborts with. *)
Inductive Panic : Type :=
| PanicIndexOutOfRange (index length : Z)
| PanicNilDereference
| PanicMessage (msg : string).

(** The result of a call: a returned value or an abort. *)
Inductive Outcome (A : Type) : Type :=
| Returned (a : A)
| Panicked (p : Panic).
Arguments Returned {A} a.
Arguments Panicked {A} p.

(** One call after another: an abort of the first is the abort of both. *)
Definition andThen {A B : Type} (o : Outcome A) (f : A -> Outcome B) : Outcome B :=
  match o with
  | Returned a => f a
  | Panicked p => Panicked p
  end.

(** What is made of the value a call returns. *)
Definition mapOutcome {A B : Type} (f : A -> B) (o : Outcome A) : Outcome B :=
  match o with
  | Returned a => Returned (f a)
  | Panicked p => Panicked p
  end.

(** [len(l)] and [l[i]] on a slice: the index expression has no check in
    the source, the run time aborts when [i] is outside [0 <= i < len(l)]. *)
Definition lenOf {A : Type} (l : list A) : Z := Z.of_nat (List.length l).

Definition index {A : Type} (l : list A) (i : Z) : Outcome A :=
  if i <? 0 then Panicked (PanicIndexOutOfRange i (lenOf l))
  else match nth_error l (Z.to_nat i) with
       | Some a => Returned a
       | None => Panicked (PanicIndexOutOfRange i (lenOf l))
       end.

(** [strings.Join]. *)
Fixpoint Join (elems : list string) (sep : string) : string :=
  match elems with
  | [] => EmptyString
  | [e] => e
  | e :: rest => e ++ sep ++ Join rest sep
  end.

(** *** Slices and their backing arrays

    A slice is a window (offset, length, capacity) on a backing array; the
    arrays live in a store, and two slices on the same array share its
    cells.  [append] writes in place while the capacity lasts and moves the
    elements to a new array when it does not. *)
Section Slices.
Variable A : Type.
Variable zero : A.

(** The capacity the run time picks when a slice of capacity [c] grows;
    the new array always holds the new length. *)
Variable growCap : nat -> nat.

Record Slice : Type := mkSlice {
  sArray : nat;
  sOffset : nat;
  sLen : nat;
  sCap : nat
}.

Definition Store : Type := list (list A).

(** The nil slice: no array, length and capacity 0. *)
Definition nilSlice : Slice := mkSlice 0 0 0 0.

Definition arrayOf (h : Store) (b : nat) : list A := nth b h [].

(** The elements a slice shows. *)
Definition elements (h : Store) (s : Slice) : list A :=
  firstn (sLen s) (skipn (sOffset s) (arrayOf h (sArray s))).

(** [s[i]]. *)
Definition read (h : Store) (s : Slice) (i : Z) : Outcome A := index (elements h s) i.

Fixpoint setNth {X : Type} (n : nat) (x : X) (l : list X) : list X :=
  match n, l with
  | _, [] => []
  | O, _ :: l' => x :: l'
  | S n', y :: l' => y :: setNth n' x l'
  end.

Definition append (h : Store) (s : Slice) (x : A) : Store * Slice :=
  if (sLen s <? sCap s)%nat then
    (setNth (sArray s) (setNth (sOffset s + sLen s) x (arrayOf h (sArray s))) h,
     mkSlice (sArray s) (sOffset s) (S (sLen s)) (sCap s))
  else
    let newcap := Nat.max (S (sLen s)) (growCap (sCap s)) in
    ((h ++ [elements h s ++ x :: repeat zero (newcap - S (sLen s))])%list,
     mkSlice (List.length h) 0 (S (sLen s)) newcap).

(** A slice is well formed in a store when its window lies inside its
    array; the nil slice is well formed in every store. *)
Definition wellFormed (h : Store) (s : Slice) : Prop :=
  (sLen s <= sCap s)%nat /\
  (sCap s = 0%nat \/
   ((sArray s < List.length h)%nat /\
    (sOffset s + sCap s <= List.length (arrayOf h (sArray s)))%nat)).
End Slices.

Arguments mkSlice sArray sOffset sLen sCap : clear implicits.
Arguments nilSlice : clear implicits.
Arguments arrayOf {A} h b.
Arguments elements {A} h s.
Arguments read {A} h s i.
Arguments append {A} zero growCap h s x.
Arguments wellFormed {A} h s.

(** *** Maps with string keys

    A Go map holds one entry per key and hands its entries out in no fixed
    order: it is the list of its entries in the order a [range] visits
    them. *)
Section Maps.
Variable V : Type.

Definition Map : Type := list (string * V).

(** [v, found := m[k]]. *)
Fixpoint mapIndex (m : Map) (k : string) : option V :=
  match m with
  | [] => None
  | (k', v) :: rest => if String.eqb k k' then Some v else mapIndex rest k
  end.

(** [m[k] = v]. *)
Fixpoint mapAssign (m : Map) (k : string) (v : V) : Map :=
  match m with
  | [] => [(k, v)]
  | (k', v') :: rest =>
      if String.eqb k k' then (k, v) :: rest else (k', v') :: mapAssign rest k v
  end.

Definition mapKeys (m : Map) : list string := map fst m.

(** A variable of a map type holds a made map or nil, [None] here.  The nil
    map reads as a map without entries: its [len] is 0, no key is found in
    it and a [range] over it visits nothing. *)
Definition mapEntries (m : option Map) : Map :=
  match m with
  | Some entries => entries
  | None => []
  end.
End Maps.

Arguments mapIndex {V} m k.
Arguments mapAssign {V} m k v.
Arguments mapKeys {V} m.
Arguments mapEntries {V} m.

End Go.

(** ** Package utils: the variable resolver (utils/misc.go) *)

Module utils.

(** The dynamic values an [interface{}] of the context can hold.  The
    kinds [ToXAtom] knows have a constructor each; every other dynamic type
    is a [VObject] that records its type name, whether it is a typed nil
    pointer, and which of the capability interfaces ([Array], [Indexable],
    [Resolvable], [Atomizable]) it implements.  The indexable types of the
    sources are backed by a slice, so the capability carries the items. *)
Inductive Value : Type :=
| VNil
| VError (msg : string)
| VString (s : string)
| VDecimal (coefficient exponent : Z)
| VInt (i : Z)
| VTime (t : Z)
| VBool (b : bool)
| VObject (typeName : string) (nilPointer : bool) (isArray : bool)
          (indexable : option (list Value))
          (resolvable : option (string -> Value))
          (atomizable : bool).

(** [IsNil]: the untyped nil, or a typed nil pointer. *)
Definition IsNil (v : Value) : bool :=
  match v with
  | VNil => true
  | VObject _ nilPointer _ _ _ _ => nilPointer
  | _ => false
  end.

(** [reflect.TypeOf(v)] as printed by [%s]. *)
Definition TypeOf (v : Value) : string :=
  match v with
  | VNil => "%!s(<nil>)"
  | VError _ => "*errors.errorString"
  | VString _ => "string"
  | VDecimal _ _ => "decimal.Decimal"
  | VInt _ => "int"
  | VTime _ => "time.Time"
  | VBool _ => "bool"
  | VObject typeName _ _ _ _ _ => typeName
  end.

(** The comma-ok type assertions of the resolver. *)
Definition asError (v : Value) : option string :=
  match v with VError msg => Some msg | _ => None end.

Definition asIndexable (v : Value) : option (list Value) :=
  match v with VObject _ _ _ indexable _ _ => indexable | _ => None end.

Definition asResolvable (v : Value) : option (string -> Value) :=
  match v with VObject _ _ _ _ resolvable _ => resolvable | _ => None end.

Definition isAtomizable (v : Value) : bool :=
  match v with VObject _ _ _ _ _ atomizable => atomizable | _ => false end.

(** [Length] and [Index] of the slice-backed indexable types ([URNList],
    the arrays): [return l[index]] and [return len(l)]. *)
Definition Length (l : list Value) : Z := Go.lenOf l.

Definition Index (l : list Value) (index : Z) : Go.Outcome Value := Go.index l index.

(** *** popNextVariable *)

(** The loop of [popNextVariable]: the position and character of the first
    [.] or []], or of the first [[] that is not at position 0.  Ranging over
    a string yields runes at their byte offsets; the three characters are
    ASCII, and a byte below 128 is never part of a longer UTF-8 sequence,
    so the scan over bytes finds the same position. *)
Fixpoint scanKey (i : Z) (input : string) : option (Z * ascii) :=
  match input with
  | EmptyString => None
  | String c rest =>
      if (i =? 0) && Ascii.eqb c "[" then scanKey (i + 1) rest
      else if Ascii.eqb c "[" then Some (i, c)
      else if Ascii.eqb c "]" then Some (i, c)
      else if Ascii.eqb c "." then Some (i, c)
      else scanKey (i + 1) rest
  end.

Definition keyStartOf (input : string) : Z :=
  match input with
  | String c _ => if Ascii.eqb c "[" then 1 else 0
  | EmptyString => 0
  end.

Definition popNextVariable (input : string) : string * string :=
  match scanKey 0 input with
  | None => (input, EmptyString)
  | Some (keyEnd, c) =>
      let restStart := if Ascii.eqb c "[" then keyEnd else keyEnd + 1 in
      (Go.Trim (Go.slice input (keyStartOf input) keyEnd) Go.dquote,
       Go.sliceFrom input restStart)
  end.



(** *** ToXAtom *)

Inductive XType : Type :=
| XTypeNil | XTypeError | XTypeString | XTypeDecimal | XTypeTime | XTypeBool | XTypeArray.

(** The error of [ToXAtom], with the two arguments of its format string. *)
Inductive AtomError : Type :=
| UnknownType (typeName : string) (val : Value).

Definition ToXAtom (val : Value) : Value * XType * option AtomError :=
  match val with
  | VNil => (val, XTypeNil, None)
  | VError _ => (val, XTypeError, None)
  | VString _ => (val, XTypeString, None)
  | VDecimal _ _ => (val, XTypeDecimal, None)
  | VInt i => (VDecimal i 0, XTypeDecimal, None)
  | VTime _ => (val, XTypeTime, None)
  | VBool _ => (val, XTypeBool, None)
  | VObject _ _ true _ _ _ => (val, XTypeArray, None)
  | VObject _ _ false _ _ _ => (val, XTypeNil, Some (UnknownType (TypeOf val) val))
  end.

(** *** ResolveVariable *)

Definition Errorf_nil (key : string) : Value :=
  VError ("can't resolve key '" ++ key ++ "' of nil").

Definition Errorf_range (index length : Z) : Value :=
  VError ("index " ++ Go.Itoa index ++ " out of range for " ++ Go.Itoa length ++ " items").

Definition Errorf_type (key : string) (variable : Value) : Value :=
  VError ("can't resolve key '" ++ key ++ "' of type " ++ TypeOf variable).

Definition panic_unsupported (key : string) (variable : Value) : Go.Panic :=
  Go.PanicMessage ("key '" ++ key ++ "' of resolved to usupported type " ++ TypeOf variable).

(** One pass through the body of the loop, after [popNextVariable]: either
    the loop goes on with a new [variable], or the function is left. *)
Inductive Step : Type :=
| Continue (variable : Value)
| Leave (result : Go.Outcome Value).

(** Lines 178-191: the lookup by name. *)
Definition resolveByName (variable : Value) (key : string) : Step :=
  match asResolvable variable with
  | Some resolve =>
      let variable' := resolve key in
      match asError variable' with
      | Some _ => Leave (Go.Returned variable')
      | None => Continue variable'
      end
  | None => Leave (Go.Returned (Errorf_type key variable))
  end.

(** Lines 166-175: the lookup by index, [index] being the parsed key. *)
Definition resolveByIndex (indexable : list Value) (index : Z) : Step :=
  if (index >=? Length indexable) || (index <? - Length indexable)
  then Leave (Go.Returned (Errorf_range index (Length indexable)))
  else
    let index := if index <? 0 then index + Length indexable else index in
    match Index indexable index with
    | Go.Returned variable' => Continue variable'
    | Go.Panicked p => Leave (Go.Panicked p)
    end.

Definition resolveKey (variable : Value) (key : string) : Step :=
  if IsNil variable then Leave (Go.Returned (Errorf_nil key))
  else
    match Go.Atoi key with
    | Some index =>
        match asIndexable variable with
        | Some indexable => resolveByIndex indexable index
        | None => resolveByName variable key
        end
    | None => resolveByName variable key
    end.

(** The loop [for rest != ""].  Every pass shortens [rest], so its length
    bounds the number of passes; [Diverged] is the model running out of
    passes, which [resolveLoop_enough] shows never happens. *)
Inductive Loop : Type :=
| Finished (variable : Value) (key : string)
| Exited (result : Go.Outcome Value)
| Diverged.

Fixpoint resolveLoop (passes : nat) (variable : Value) (key rest : string) : Loop :=
  match rest with
  | EmptyString => Finished variable key
  | _ =>
      match passes with
      | O => Diverged
      | S passes' =>
          let (key', rest') := popNextVariable rest in
          match resolveKey variable key' with
          | Leave result => Exited result
          | Continue variable' => resolveLoop passes' variable' key' rest'
          end
      end
  end.

(** Lines 194-203: the check of the resolved value. *)
Definition checkResolved (variable : Value) (key : string) : Go.Outcome Value :=
  match ToXAtom variable with
  | (_, _, Some _) =>
      if isAtomizable variable then Go.Returned variable
      else Go.Panicked (panic_unsupported key variable)
  | (_, _, None) => Go.Returned variable
  end.

Definition stripDot (key : string) : string :=
  match key with
  | String c key' => if Ascii.eqb c "." then key' else key
  | EmptyString => key
  end.

(** [ResolveVariable]; [None] only if the loop ran out of passes. *)
Definition ResolveVariable (variable : Value) (key : string) : option (Go.Outcome Value) :=
  match asError variable with
  | Some _ => Some (Go.Returned variable)
  | None =>
      match key with
      | EmptyString => Some (Go.Returned variable)
      | _ =>
          let key := stripDot key in
          match resolveLoop (String.length key) variable key key with
          | Finished variable' key' => Some (checkResolved variable' key')
          | Exited result => Some result
          | Diverged => None
          end
      end
  end.

(** *** mapResolver *)

(** [mapResolver.Resolve]. *)
Definition mapResolver_Resolve (values : Go.Map Value) (key : string) : Value :=
  match Go.mapIndex values key with
  | Some val => val
  | None => VError ("no key '" ++ key ++ "' in map")
  end.

(** [NewMapResolver]: a pointer to a [mapResolver], which is resolvable and
    atomizable and nothing else. *)
Definition NewMapResolver (values : Go.Map Value) : Value :=
  VObject "*utils.mapResolver" false false None (Some (mapResolver_Resolve values)) true.

End utils.

(** ** Package types: numbers, dicts and arrays of the expression language *)

Module types.

(** The arbitrary-precision decimals come from a library outside the
    repository.  The sources use its zero, its parser, its integer part and
    its text form; they are taken as given.  [BigInt] is the integer part of
    a number, its fraction cut off, as the unbounded integer it is. *)
Class DecimalLibrary : Type := {
  Decimal : Type;
  Zero : Decimal;
  NewFromString : string -> option Decimal;
  BigInt : Decimal -> Z;
  DecimalString : Decimal -> string
}.

Section Values.
Context {decimal : DecimalLibrary}.

(** An [XError] is built by [NewXErrorf] from its message. *)
Record XError : Type := NewXErrorf { errorMessage : string }.

(** The values behind the [XValue] interface: the nil interface, a typed
    nil pointer, and the kinds of the language.  A Go map has unique keys
    and no order; the dict keeps its entries in the order a [range] over
    the map visits them, which is any order. *)
Inductive XValue : Type :=
| XNil
| XNilPointer (typeName : string)
| XErrorValue (e : XError)
| XNumber (native : Decimal)
| XText (native : string)
| XBoolean (native : bool)
| XDateTime (native : Z)
| XArray (values : list XValue)
| XDict (values : list (string * XValue)).

Definition NewXNumber (value : Decimal) : XValue := XNumber value.
Definition XNumberZero : XValue := NewXNumber Zero.

(** [utils.IsNil] on an [XValue]. *)
Definition IsNil (x : XValue) : bool :=
  match x with
  | XNil | XNilPointer _ => true
  | _ => false
  end.

(** [XNumber.Render]: the text form of the native decimal. *)
Definition Render (native : Decimal) : string := DecimalString native.

(** [Decimal.IntPart] hands the integer part back as an [int64], which
    number.go compares with [math.MinInt32] and [math.MaxInt32] and converts
    with [int(...)]: an integer part that does not fit 64 bits is narrowed,
    and what comes back are its low 64 bits. *)
Definition IntPart (d : Decimal) : Z := Go.int64 (BigInt d).

(** [Describe] and the package-level [ToXText] are not under src/; they
    are taken as given. *)
Variable Describe : XValue -> string.
Variable ToXText : XValue -> string * option XError.
Variable XError_ToXText : XError -> string.

(** *** ToXNumber and ToInteger (number.go) *)

Definition conversionError (x : XValue) : XError :=
  NewXErrorf ("unable to convert " ++ Describe x ++ " to a number").

(** The number is returned as the decimal it wraps. *)
Definition ToXNumber (x : XValue) : Decimal * option XError :=
  let failed := (Zero, Some (conversionError x)) in
  if negb (IsNil x) then
    match x with
    | XErrorValue typed => (Zero, Some typed)
    | XNumber typed => (typed, None)
    | XText typed =>
        match NewFromString typed with
        | Some parsed => (parsed, None)
        | None => failed
        end
    | _ => failed
    end
  else failed.

Definition rangeError (number : Decimal) : XError :=
  NewXErrorf ("number value " ++ Render number ++ " is out of range for an integer").

Definition ToInteger (x : XValue) : Z * option XError :=
  match ToXNumber x with
  | (_, Some err) => (0, Some err)
  | (number, None) =>
      let intPart := IntPart number in
      if (intPart <? Go.MinInt32) || (intPart >? Go.MaxInt32)
      then (0, Some (rangeError number))
      else (intPart, None)
  end.

(** *** xdict (dict.go)

    An [xdict] has one field, [values], a Go map: a made map, or nil as in
    [NewXDict(nil)].  The methods that only read the map are given its
    entries, [Go.mapEntries values], which are none for the nil map; [Put]
    assigns to the map and is given the map itself. *)

(** [sort.Strings]: ascending in the byte-wise order of Go strings. *)
Fixpoint insertSorted (k : string) (sorted : list string) : list string :=
  match sorted with
  | [] => [k]
  | k' :: rest => if String.leb k k' then k :: sorted else k' :: insertSorted k rest
  end.

Fixpoint sortStrings (keys : list string) : list string :=
  match keys with
  | [] => []
  | k :: rest => insertSorted k (sortStrings rest)
  end.

(** [x.Keys()]: the keys in the order the map is ranged over. *)
Definition Keys (values : list (string * XValue)) : list string := map fst values.

(** [x.values[k]]: the value of the key, nil when it is absent. *)
Fixpoint mapGet (values : list (string * XValue)) (k : string) : XValue :=
  match values with
  | [] => XNil
  | (k', v) :: rest => if String.eqb k k' then v else mapGet rest k
  end.

(** [NewXDict] keeps the map it is handed, nil or not; [NewEmptyXDict]
    makes a map without entries. *)
Definition NewXDict (values : option (list (string * XValue)))
  : option (list (string * XValue)) := values.

Definition NewEmptyXDict : option (list (string * XValue)) := Some [].

(** [x.Put]: [x.values[key] = value].  A made map has one entry per key;
    the assignment to an entry of the nil map aborts. *)
Definition Put (values : option (list (string * XValue))) (key : string) (value : XValue)
  : Go.Outcome (option (list (string * XValue))) :=
  match values with
  | Some entries => Go.Returned (Some (Go.mapAssign entries key value))
  | None => Go.Panicked (Go.PanicMessage "assignment to entry in nil map")
  end.

(** The body of the loop of [xdict.ToXText]: one [k: v] pair. *)
Definition pairText (values : list (string * XValue)) (k : string) : string :=
  let (vAsText, xerr) := ToXText (mapGet values k) in
  let vAsText := match xerr with
                 | Some e => XError_ToXText e
                 | None => vAsText
                 end in
  k ++ ": " ++ vAsText.

Definition xdict_ToXText (values : list (string * XValue)) : string :=
  let sortedKeys := sortStrings (Keys values) in
  let pairs := map (pairText values) sortedKeys in
  "{" ++ Go.Join pairs ", " ++ "}".

(** *** xarray (array.go) *)

Definition xarray_Length (values : list XValue) : Z := Go.lenOf values.

Definition xarray_Index (values : list XValue) (index : Z) : Go.Outcome XValue :=
  Go.index values index.

(** *** The other operations of xdict (dict.go) *)

(** [val, found := x.values[key]]. *)
Fixpoint mapFind (values : list (string * XValue)) (k : string) : option XValue :=
  match values with
  | [] => None
  | (k', v) :: rest => if String.eqb k k' then Some v else mapFind rest k
  end.

Definition xdict_Get (values : list (string * XValue)) (key : string) : XValue :=
  mapGet values key.



(** [NewXResolveError] is not under src/; it is taken as given. *)
Variable NewXResolveError : list (string * XValue) -> string -> XError.

Definition xdict_Resolve (values : list (string * XValue)) (key : string) : XValue :=
  match mapFind values key with
  | Some val => val
  | None => XErrorValue (NewXResolveError values key)
  end.

(** *** The other operations of xarray (array.go)

    An [xarray] holds a slice; [Append] is [append] on it. *)
Definition xarray_Append (growCap : nat -> nat) (h : Go.Store XValue) (a : Go.Slice)
           (value : XValue) : Go.Store XValue * Go.Slice :=
  Go.append XNil growCap h a value.

Definition xarray_ToBool (h : Go.Store XValue) (a : Go.Slice) : bool :=
  Go.lenOf (Go.elements h a) >? 0.

(** *** NewXNumberFromInt (number.go); [decimal.New] is taken as given. *)
Variable decimal_New : Z -> Z -> Decimal.

Definition NewXNumberFromInt (value : Z) : XValue := NewXNumber (decimal_New value 0).

End Values.

End types.

(** ** Package utils: small helpers (utils/misc.go) *)

Module misc.

(** [Max] and [Min], at the type [int]. *)
Definition Max (x y : Z) : Z := if x >? y then x else y.

Definition Min (x y : Z) : Z := if x <? y then x else y.

(** [Set], at the key type [string]: every element is assigned [true]. *)
Definition Set_ (s : list string) : Go.Map bool :=
  fold_left (fun m v => Go.mapAssign m v true) s [].

(** [SortedKeys]: [maps.Keys] hands the keys out in the order of the map,
    [slices.Sort] sorts them ascending. *)
Definition SortedKeys (m : Go.Map bool) : list string :=
  types.sortStrings (Go.mapKeys m).

End misc.

(** ** Package flows: contact URNs (urns.go) *)

Module flows.

Section URNs.
(** [urns.URN] is a string; its [Scheme] comes from a library outside the
    repository and is taken as given. *)
Variable Scheme : string -> string.
Variable growCap : nat -> nat.

(** A channel is known by its UUID. *)
Definition Channel : Type := string.

Record ContactURN : Type := NewContactURN {
  URN : string;
  channel : option Channel
}.

(** A [URNList] is a slice of pointers; [None] is the nil pointer. *)
Definition URNList : Type := Go.Slice.
Definition Store : Type := Go.Store (option ContactURN).

Definition appendURN (h : Store) (l : URNList) (u : option ContactURN) : Store * URNList :=
  Go.append None growCap h l u.

(** The loop of [WithScheme], [n] elements from position [i] on;
    [u.URN] dereferences [u]. *)
Fixpoint rangeWithScheme (n : nat) (i : Z) (l : URNList) (scheme : string)
         (h : Store) (matching : URNList) : Go.Outcome (Store * URNList) :=
  match n with
  | O => Go.Returned (h, matching)
  | S n' =>
      match Go.read h l i with
      | Go.Panicked p => Go.Panicked p
      | Go.Returned None => Go.Panicked Go.PanicNilDereference
      | Go.Returned (Some u) =>
          if String.eqb (Scheme (URN u)) scheme then
            let (h', matching') := appendURN h matching (Some u) in
            rangeWithScheme n' (i + 1) l scheme h' matching'
          else rangeWithScheme n' (i + 1) l scheme h matching
      end
  end.

Definition WithScheme (h : Store) (l : URNList) (scheme : string)
  : Go.Outcome (Store * URNList) :=
  rangeWithScheme (Go.sLen l) 0 l scheme h Go.nilSlice.

(** [URNList.Length] and [URNList.Index]. *)
Definition Length (h : Store) (l : URNList) : Z := Go.lenOf (Go.elements h l).

Definition Index (h : Store) (l : URNList) (index : Z) : Go.Outcome (option ContactURN) :=
  Go.read h l index.

(** [clone]: [make] gives a new array of nil pointers of the length of [l],
    [copy] fills it with the elements of [l]. *)
Definition clone (h : Store) (l : URNList) : Store * URNList :=
  let made : list (option ContactURN) := repeat None (Go.sLen l) in
  let copied := Go.elements h l in
  ((h ++ [copied ++ skipn (List.length copied) made])%list,
   Go.mkSlice (List.length h) 0 (Go.sLen l) (Go.sLen l)).

(** [strings.ToLower] and [urns.IsValidScheme] are taken as given. *)
Variable ToLower : string -> string.
Variable IsValidScheme : string -> bool.

(** What [URNList.Resolve] returns: a list or an error. *)
Inductive Resolved : Type :=
| ResolvedList (l : URNList)
| ResolvedError (msg : string).

Definition Resolve (h : Store) (l : URNList) (key : string)
  : Go.Outcome (Store * Resolved) :=
  let scheme := ToLower key in
  if negb (IsValidScheme scheme)
  then Go.Returned (h, ResolvedError ("unknown URN scheme: " ++ key))
  else
    match WithScheme h l scheme with
    | Go.Returned (h', matching) => Go.Returned (h', ResolvedList matching)
    | Go.Panicked p => Go.Panicked p
    end.

End URNs.

End flows.

(** ** Package flows: results (flows/results.go) *)

Module results.

Record Result : Type := NewResult {
  Name : string;
  Value : string;
  Category : string;
  CategoryLocalized : string;
  NodeUUID : string;
  Input : string;
  Extra : string;
  CreatedOn : Z
}.

(** A [Results] is a map, that is a reference: [None] is the nil map, and
    the entries of the others live in a store that the holders of the
    reference share. *)
Definition Results : Type := option nat.
Definition Store : Type := list (Go.Map Result).

Definition entries (h : Store) (r : Results) : Go.Map Result :=
  match r with
  | Some a => nth a h []
  | None => []
  end.

Section Results.
(** [utils.Snakify] is not under src/; it is taken as given. *)
Variable Snakify : string -> string.

Definition NewResults (h : Store) : Store * Results :=
  ((h ++ [[]])%list, Some (List.length h)).

(** [Clone]: a new map, assigned entry by entry. *)
Definition Clone (h : Store) (r : Results) : Store * Results :=
  let clone := fold_left (fun m kv => Go.mapAssign m (fst kv) (snd kv)) (entries h r) [] in
  ((h ++ [clone])%list, Some (List.length h)).

(** [Save]; an assignment to an entry of the nil map aborts. *)
Definition Save (h : Store) (r : Results) (result : Result) : Go.Outcome Store :=
  match r with
  | Some a =>
      Go.Returned
        (Go.setNth a (Go.mapAssign (nth a h []) (Snakify (Name result)) result) h)
  | None => Go.Panicked (Go.PanicMessage "assignment to entry in nil map")
  end.

(** [Get]: the result of the key, [None] (the nil pointer) without one. *)
Definition Get (h : Store) (r : Results) (key : string) : option Result :=
  Go.mapIndex (entries h r) key.

End Results.

Section Context.
Context {decimal : types.DecimalLibrary}.
(** [types.JSONToXValue] is not under src/; it is taken as given. *)
Variable JSONToXValue : string -> types.XValue.

(** [Result.Context]: the map it returns. *)
Definition Result_Context (r : Result) : list (string * types.XValue) :=
  let categoryLocalized :=
    if String.eqb (CategoryLocalized r) EmptyString then Category r
    else CategoryLocalized r in
  [("name", types.XText (Name r));
   ("value", types.XText (Value r));
   ("category", types.XText (Category r));
   ("category_localized", types.XText categoryLocalized);
   ("input", types.XText (Input r));
   ("extra", JSONToXValue (Extra r));
   ("node_uuid", types.XText (NodeUUID r));
   ("created_on", types.XDateTime (CreatedOn r))].

(** [Result.SimpleContext]. *)
Definition Result_SimpleContext (r : Result) : list (string * types.XValue) :=
  [("value", types.XText (Value r));
   ("category", types.XText (Category r))].

End Context.

End results.

(** ** Package actions: the status of a webhook call (call_webhook.go) *)

Module actions.

Definition StatusGone : Z := 410.

(** [http.Response], of which only the status code is read. *)
Record Response : Type := { StatusCode : Z }.

(** [flows.WebhookCall]; the response is a pointer, [None] when nil. *)
Record WebhookCall : Type := { Response_ : option Response }.

Inductive CallStatus : Type :=
| CallStatusSuccess
| CallStatusConnectionError
| CallStatusResponseError
| CallStatusSubscriberGone.

(** [err] is [None] for the nil error; [/] on Go integers truncates
    towards zero. *)
Definition callStatus (call : WebhookCall) (err : option string) (isResthook : bool)
  : CallStatus :=
  match Response_ call, err with
  | Some response, None =>
      if isResthook && (StatusCode response =? StatusGone) then CallStatusSubscriberGone
      else if Z.quot (StatusCode response) 100 =? 2 then CallStatusSuccess
      else CallStatusResponseError
  | _, _ => CallStatusConnectionError
  end.

(** *** CallWebhookAction.Execute *)

Record CallWebhookAction : Type := NewCallWebhook {
  Method : string;
  URL : string;
  Headers : Go.Map string;
  Body : string;
  ResultName : string
}.

(** The events the action logs itself: [events.NewError] and
    [events.NewErrorf] make an error event from a text; what the call logs
    is [Logged]. *)
Inductive Event : Type :=
| NewError (text : string)
| Logged (text : string).

Section Execute.
(** The run evaluates the templates, a failure comes with the text it
    could make; [strings.TrimSpace], [strings.ToUpper],
    [utf8.RuneCountInString] and [url.Parse] are the library's; [call] is
    the method of the action that does the request, with the events it logs
    and the error it returns.  All are taken as given. *)
Variable EvaluateTemplate : string -> string * option string.
Variable EvaluateTemplateText : string -> string * option string.
Variable TrimSpace : string -> string.
Variable ToUpper : string -> string.
Variable RuneCountInString : string -> Z.
Variable urlParses : string -> bool.
Variable call : string -> string -> string -> list Event * option string.

Definition isValidURL (u : string) : bool :=
  if RuneCountInString u >? 2048 then false else urlParses u.

Definition logError (log : list Event) (err : option string) : list Event :=
  match err with
  | Some e => (log ++ [NewError e])%list
  | None => log
  end.

(** [Execute]: the events logged, oldest first, and the error returned. *)
Definition Execute (a : CallWebhookAction) (log : list Event) : list Event * option string :=
  let (url, err) := EvaluateTemplate (URL a) in
  let log := logError log err in
  let url := TrimSpace url in
  if String.eqb url EmptyString then
    ((log ++ [NewError "webhook URL evaluated to empty string"])%list, None)
  else if negb (isValidURL url) then
    ((log ++ [NewError ("webhook URL evaluated to an invalid URL: '" ++ url ++ "'")])%list,
     None)
  else
    let method := ToUpper (Method a) in
    let body := Body a in
    let (body, log) :=
      if negb (String.eqb body EmptyString) then
        let (body, err) := EvaluateTemplateText body in (body, logError log err)
      else (body, log) in
    let (events, result) := call url method body in
    ((log ++ events)%list, result).

End Execute.

End actions.

(** ** Package modifiers: the name modifier (name.go) *)

Module modifiers.

Record Environment : Type := { MaxValueLength : Z }.

Record Contact : Type := { Name : string }.

Definition SetName (contact : Contact) (name : string) : Contact := {| Name := name |}.

Inductive Event : Type :=
| NewContactNameChanged (name : string).

Record NameModifier : Type := NewName { Name_ : string }.

Section NameModifier.
(** [utils.Truncate] is not under src/; it is taken as given. *)
Variable Truncate : string -> Z -> string.

(** [Apply] changes the contact it points to and calls [log]; both are
    threaded through: the contact after the call, the events logged so far
    (oldest first), and the result. *)
Definition Apply (m : NameModifier) (env : Environment)
           (contact : Contact) (log : list Event) : Contact * list Event * bool :=
  if negb (String.eqb (Name contact) (Name_ m)) then
    let name := Truncate (Name_ m) (MaxValueLength env) in
    (SetName contact name, (log ++ [NewContactNameChanged name])%list, true)
  else (contact, log, false).

End NameModifier.

End modifiers.

(** ** Vocabulary of the statements, and the stand-ins used to run examples *)

Module Spec.

(** The characters that end a key: [.], [[] and []]. *)
Definition isSeparator (c : ascii) : bool :=
  Ascii.eqb c "[" || Ascii.eqb c "]" || Ascii.eqb c ".".

(** A text without separators. *)
Fixpoint plain (s : string) : bool :=
  match s with
  | EmptyString => true
  | String c s' => negb (isSeparator c) && plain s'
  end.

(** [s] between double quotes. *)
Definition quoted (s : string) : string :=
  String Go.dquote (s ++ String Go.dquote EmptyString).

(** The order [sort.Strings] sorts by: byte by byte, a prefix first. *)
Definition le (a b : string) : Prop := String.leb a b = true.

(** An opening bracket, or nothing. *)
Definition opening (bracket : bool) : string := if bracket then "[" else EmptyString.

(** Modelled from the spec: the decimal library is not under src/.  The
    spec asks for an arbitrary-precision decimal parsed by a strict decimal
    grammar and truncated to its integer part: a number is
    [coefficient * 10 ^ exponent], its text is an optional sign and digits
    with at most one point. *)
Record dec : Type := mkDec { coefficient : Z; exponent : Z }.

(** Modelled from the spec: the text before and after the first point. *)
Fixpoint splitPoint (s : string) : string * option string :=
  match s with
  | EmptyString => (EmptyString, None)
  | String c s' =>
      if Ascii.eqb c "." then (EmptyString, Some s')
      else let (a, b) := splitPoint s' in (String c a, b)
  end.

(** Modelled from the spec: the parser of the strict decimal grammar, an
    optional sign and at least one digit, with at most one point. *)
Definition parseDec (s : string) : option dec :=
  let (neg, body) :=
    match s with
    | String c s' =>
        if Ascii.eqb c "-" then (true, s')
        else if Ascii.eqb c "+" then (false, s') else (false, s)
    | EmptyString => (false, s)
    end in
  let (whole, fraction) := splitPoint body in
  let digits := whole ++ match fraction with Some f => f | None => EmptyString end in
  match digits with
  | EmptyString => None
  | _ =>
      match Go.parseDigits 0 digits with
      | Some n =>
          Some (mkDec (if neg then - n else n)
                      (match fraction with Some f => - Go.len f | None => 0 end))
      | None => None
      end
  end.

(** Modelled from the spec: the integer part, the fraction cut off. *)
Definition intPartDec (d : dec) : Z :=
  if 0 <=? exponent d then coefficient d * 10 ^ exponent d
  else Z.quot (coefficient d) (10 ^ (- exponent d)).

(** Modelled from the spec: the text of a number, with a point and the
    fraction without its trailing zeros when there is one. *)
Fixpoint zeros (n : nat) : string :=
  match n with
  | O => EmptyString
  | S n' => String "0" (zeros n')
  end.

Definition stringDec (d : dec) : string :=
  if 0 <=? exponent d then Go.Itoa (coefficient d * 10 ^ exponent d)
  else
    let scale := 10 ^ (- exponent d) in
    let a := Z.abs (coefficient d) in
    let digits := Go.Itoa (a mod scale) in
    let padded := zeros (Z.to_nat (- exponent d) - String.length digits) ++ digits in
    let whole := (if coefficient d <? 0 then "-" else EmptyString) ++ Go.Itoa (a / scale) in
    match Go.trimRight "0" padded with
    | EmptyString => whole
    | fraction => whole ++ "." ++ fraction
    end.

(** Modelled from the spec: the decimal library as the sources use it. *)
Definition decimalModel : types.DecimalLibrary := {|
  types.Decimal := dec;
  types.Zero := mkDec 0 0;
  types.NewFromString := parseDec;
  types.BigInt := intPartDec;
  types.DecimalString := stringDec
|}.

Definition number (c e : Z) : @types.XValue decimalModel :=
  @types.XNumber decimalModel (mkDec c e).

(** Modelled from the spec: the package-level [ToXText] and [Describe]
    are not under src/.  A text renders as itself, a number as its decimal
    text, an error is handed back as the error; the kinds are described by
    their names. *)
Definition toXTextModel (x : @types.XValue decimalModel) : string * option types.XError :=
  match x with
  | types.XText s => (s, None)
  | types.XNumber d => (stringDec d, None)
  | types.XBoolean b => (if b then "true" else "false", None)
  | types.XErrorValue e => (EmptyString, Some e)
  | _ => (EmptyString, None)
  end.

(** Modelled from the spec: [Describe], the name of the kind or the text
    of the value. *)
Definition describeModel (x : @types.XValue decimalModel) : string :=
  match x with
  | types.XNil | types.XNilPointer _ => "nil"
  | types.XErrorValue _ => "error"
  | types.XNumber d => stringDec d
  | types.XText s => s
  | types.XBoolean _ => "boolean"
  | types.XDateTime _ => "datetime"
  | types.XArray _ => "array"
  | types.XDict _ => "dict"
  end.

(** Modelled from the spec: the URN library is not under src/.  The
    scheme of an URN such as [tel:+1] is the text before its first colon. *)
Fixpoint schemeModel (urn : string) : string :=
  match urn with
  | EmptyString => EmptyString
  | String c urn' => if Ascii.eqb c ":" then EmptyString else String c (schemeModel urn')
  end.

(** Context values to run the resolver on: a list of three texts, a value
    of a type the expressions do not know, and a map with one key. *)
Definition sampleItems : list utils.Value :=
  [utils.VString "a"; utils.VString "b"; utils.VString "c"].

Definition sampleList : utils.Value :=
  utils.VObject "flows.URNList" false false (Some sampleItems) None true.

Definition sampleUnknown : utils.Value :=
  utils.VObject "*flows.unknown" false false None None false.

Definition sampleMap : utils.Value :=
  utils.VObject "*utils.mapResolver" false false None
    (Some (fun key => if String.eqb key "thing" then sampleUnknown
                      else utils.VError ("no key '" ++ key ++ "' in map")))
    true.

(** Modelled from the spec: [utils.Truncate] is not under src/; the spec
    speaks of a value-length truncation applied before text is stored.  A
    text within the limit is kept, a longer one is cut to its first [limit]
    characters. *)
Fixpoint take (n : nat) (s : string) : string :=
  match n, s with
  | S n', String c s' => String c (take n' s')
  | _, _ => EmptyString
  end.

(** Modelled from the spec: [utils.Truncate], see [take]. *)
Definition truncateModel (s : string) (limit : Z) : string :=
  if Go.len s <=? limit then s else take (Z.to_nat limit) s.

(** A capacity policy to run examples with: the capacity doubles. *)
Definition doubling (c : nat) : nat := (2 * c)%nat.

(** The URNs of a list that [WithScheme] is to keep. *)
Definition hasScheme (Scheme : string -> string) (scheme : string)
           (u : option flows.ContactURN) : bool :=
  match u with
  | Some u => String.eqb (Scheme (flows.URN u)) scheme
  | None => false
  end.

(** A store with one array, and the list [tel:+1, mailto:x, tel:+2] on it. *)
Definition urn (text : string) : option flows.ContactURN :=
  Some (flows.NewContactURN text None).

Definition sampleStore : flows.Store := [[urn "tel:+1"; urn "mailto:x"; urn "tel:+2"]].

Definition sampleURNs : flows.URNList := Go.mkSlice 0 0 3 3.

(** More context values: a map with a list and a text in it, and a list
    of one map. *)
Definition sampleContext : utils.Value :=
  utils.NewMapResolver [("urns", sampleList); ("name", utils.VString "Bob"); ("0", utils.VInt 7)].

Definition sampleContacts : utils.Value :=
  utils.VObject "[]contact" false false
    (Some [utils.NewMapResolver [("name", utils.VString "Bob")]]) None true.

(** A result to run examples with. *)
Definition sampleResult : results.Result :=
  results.NewResult "color" "red" "Red" EmptyString "n1" EmptyString EmptyString 0.

(** A text without a dot and without a closing bracket. *)
Fixpoint closed (s : string) : bool :=
  match s with
  | EmptyString => true
  | String c s' => negb (Ascii.eqb c "]") && negb (Ascii.eqb c ".") && closed s'
  end.

(** The loop of the resolver with as many passes as [rest] is long, and
    what [ResolveVariable] makes of its result. *)
Definition walk (variable : utils.Value) (key rest : string) : utils.Loop :=
  utils.resolveLoop (String.length rest) variable key rest.

Definition finish (l : utils.Loop) : option (Go.Outcome utils.Value) :=
  match l with
  | utils.Finished variable key => Some (utils.checkResolved variable key)
  | utils.Exited result => Some result
  | utils.Diverged => None
  end.


(** Modelled from the spec: [decimal.New] for the stand-in of the decimal
    library, the number [value * 10 ^ exp]. *)
Definition newDec (value exp : Z) : dec := mkDec value exp.

End Spec.

(** * Properties *)

(** ** Strings and slices *)

Module GoFacts.

Example Atoi_negative : Go.Atoi "-12" = Some (-12). Proof. reflexivity. Qed.
Example Atoi_plus : Go.Atoi "+7" = Some 7. Proof. reflexivity. Qed.
Example Atoi_underscore : Go.Atoi "1_0" = None. Proof. reflexivity. Qed.
Example Atoi_too_big : Go.Atoi "9223372036854775808" = None. Proof. reflexivity. Qed.
Example Atoi_smallest : Go.Atoi "-9223372036854775808" = Some (- 2 ^ 63).
Proof. reflexivity. Qed.
Example Atoi_sign_only : Go.Atoi "-" = None. Proof. reflexivity. Qed.
Example Itoa_negative : Go.Itoa (-120) = "-120". Proof. reflexivity. Qed.
Example Itoa_zero : Go.Itoa 0 = "0". Proof. reflexivity. Qed.
Example Itoa_1024 : Go.Itoa 1024 = "1024". Proof. reflexivity. Qed.
Example Trim_quotes : Go.Trim (Spec.quoted "my key") Go.dquote = "my key".
Proof. reflexivity. Qed.

Lemma int64_fits z : - 2 ^ 63 <= z <= 2 ^ 63 - 1 -> Go.int64 z = z.
Proof. intros H. unfold Go.int64. rewrite Z.mod_small; lia. Qed.

Lemma int64_range z : - 2 ^ 63 <= Go.int64 z <= 2 ^ 63 - 1.
Proof.
  unfold Go.int64. pose proof (Z.mod_pos_bound (z + 2 ^ 63) (2 ^ 64) ltac:(lia)). lia.
Qed.

Example int64_wraps : Go.int64 (2 ^ 64 + 5) = 5. Proof. reflexivity. Qed.
Example int64_sign : Go.int64 (2 ^ 63) = - 2 ^ 63. Proof. reflexivity. Qed.

Lemma len_nonneg s : 0 <= Go.len s.
Proof. unfold Go.len. lia. Qed.

Lemma len_String c s : Go.len (String c s) = Go.len s + 1.
Proof. unfold Go.len. simpl String.length. lia. Qed.

Lemma length_app s t : String.length (s ++ t) = (String.length s + String.length t)%nat.
Proof. induction s as [|c s IH]; simpl; auto. Qed.

Lemma app_assoc s t u : (s ++ t) ++ u = s ++ t ++ u.
Proof. induction s as [|c s IH]; simpl; congruence. Qed.

Lemma drop_app s t : Go.drop (String.length s) (s ++ t) = t.
Proof. induction s as [|c s IH]; simpl; auto. Qed.

Lemma drop_length n s : String.length (Go.drop n s) = (String.length s - n)%nat.
Proof.
  revert s. induction n as [|n IH]; intros [|c s]; simpl; auto.
Qed.

Lemma substring_prefix s t : String.substring 0 (String.length s) (s ++ t) = s.
Proof.
  induction s as [|c s IH]; simpl.
  - destruct t; reflexivity.
  - now rewrite IH.
Qed.

Lemma trimRight_snoc c s :
  Go.trimRight c (s ++ String c EmptyString) = Go.trimRight c s.
Proof.
  induction s as [|a s IH]; simpl.
  - now rewrite Ascii.eqb_refl.
  - now rewrite IH.
Qed.

(** Trimming a quoted text trims the text. *)
Lemma Trim_quoted s : Go.Trim (Spec.quoted s) Go.dquote = Go.Trim s Go.dquote.
Proof.
  unfold Go.Trim, Spec.quoted.
  cbn [Go.trimLeft]. rewrite Ascii.eqb_refl.
  induction s as [|a s IH].
  - reflexivity.
  - cbn [append Go.trimLeft]. destruct (Ascii.eqb a Go.dquote); [exact IH|].
    change (String a (s ++ String Go.dquote EmptyString))
      with ((String a s) ++ String Go.dquote EmptyString).
    apply trimRight_snoc.
Qed.

Lemma index_in_range {A : Type} (l : list A) (i : Z) :
  0 <= i < Go.lenOf l -> exists a, Go.index l i = Go.Returned a /\ nth_error l (Z.to_nat i) = Some a.
Proof.
  unfold Go.index, Go.lenOf. intros H.
  destruct (Z.ltb_spec i 0); [lia|].
  destruct (nth_error l (Z.to_nat i)) as [a|] eqn:E; [eauto|].
  apply nth_error_None in E. lia.
Qed.

Lemma index_out_of_range {A : Type} (l : list A) (i : Z) :
  ~ (0 <= i < Go.lenOf l) -> Go.index l i = Go.Panicked (Go.PanicIndexOutOfRange i (Go.lenOf l)).
Proof.
  unfold Go.index, Go.lenOf. intros H.
  destruct (Z.ltb_spec i 0); [reflexivity|].
  destruct (nth_error l (Z.to_nat i)) as [a|] eqn:E; [|reflexivity].
  assert (Z.to_nat i < List.length l)%nat by (apply nth_error_Some; congruence). lia.
Qed.

End GoFacts.

(** ** The resolver *)

Module utilsFacts.
Import utils Spec.

Example popNextVariable_dots : popNextVariable "foo.bar.baz" = ("foo", "bar.baz").
Proof. reflexivity. Qed.
Example popNextVariable_bracket : popNextVariable "foo[0].bar" = ("foo", "[0].bar").
Proof. reflexivity. Qed.
Example popNextVariable_leading : popNextVariable "[0].bar" = ("0", ".bar").
Proof. reflexivity. Qed.
Example popNextVariable_last : popNextVariable "bar" = ("bar", EmptyString).
Proof. reflexivity. Qed.
Example popNextVariable_quoted :
  popNextVariable ("[" ++ quoted "my key" ++ "]") = ("my key", EmptyString).
Proof. reflexivity. Qed.

Lemma isSeparator_cases c :
  isSeparator c = true -> c = "["%char \/ c = "]"%char \/ c = "."%char.
Proof.
  unfold isSeparator. intros H.
  apply orb_true_iff in H as [H|H]; [apply orb_true_iff in H as [H|H]|];
    apply Ascii.eqb_eq in H; auto.
Qed.

Lemma not_separator c :
  isSeparator c = false ->
  Ascii.eqb c "[" = false /\ Ascii.eqb c "]" = false /\ Ascii.eqb c "." = false.
Proof.
  unfold isSeparator. intros H.
  apply orb_false_iff in H as [H H3]. apply orb_false_iff in H as [H1 H2]. auto.
Qed.

(** The scan stops at the first separator that follows plain text, unless
    that separator is a [[] at position 0. *)
Lemma scanKey_stop body c post : forall i,
  0 <= i -> plain body = true -> isSeparator c = true ->
  (i + Go.len body = 0 -> c <> "["%char) ->
  scanKey i (body ++ String c post) = Some (i + Go.len body, c).
Proof.
  induction body as [|a body IH]; intros i Hi Hp Hc H0.
  - cbn [append scanKey]. change (Go.len EmptyString) with 0 in *.
    rewrite Z.add_0_r in *.
    destruct (Ascii.eqb_spec c "[") as [->|Hn].
    + destruct (Z.eqb_spec i 0) as [->|_]; [now elim H0|]. reflexivity.
    + rewrite andb_false_r.
      apply isSeparator_cases in Hc as [->|[->| ->]]; [now elim Hn| |]; reflexivity.
  - cbn [append scanKey]. cbn [plain] in Hp. apply andb_true_iff in Hp as [Ha Hp].
    apply negb_true_iff, not_separator in Ha as (-> & -> & ->).
    rewrite andb_false_r. rewrite IH; try lia; auto.
    + rewrite GoFacts.len_String. f_equal. f_equal. lia.
    + pose proof (GoFacts.len_nonneg body). lia.
Qed.

(** Plain text has no place to stop at. *)
Lemma scanKey_plain body : forall i, plain body = true -> scanKey i body = None.
Proof.
  induction body as [|a body IH]; intros i Hp; [reflexivity|].
  cbn [scanKey]. cbn [plain] in Hp. apply andb_true_iff in Hp as [Ha Hp].
  apply negb_true_iff, not_separator in Ha as (-> & -> & ->).
  rewrite andb_false_r. auto.
Qed.

Lemma popNextVariable_stop bracket body c post :
  plain body = true -> isSeparator c = true ->
  (c = "["%char -> bracket = true \/ body <> EmptyString) ->
  popNextVariable (opening bracket ++ body ++ String c post)
  = (Go.Trim body Go.dquote, if Ascii.eqb c "[" then String c post else post).
Proof.
  intros Hp Hc Hb. unfold popNextVariable.
  destruct bracket; cbn [opening append].
  - cbn [scanKey]. rewrite Z.eqb_refl, Ascii.eqb_refl. cbn [andb].
    rewrite scanKey_stop; auto; try lia.
    2:{ pose proof (GoFacts.len_nonneg body). lia. }
    cbn [keyStartOf]. rewrite Ascii.eqb_refl.
    unfold Go.slice, Go.sliceFrom. f_equal.
    + replace (Z.to_nat (0 + 1 + Go.len body - 1)) with (String.length body)
        by (unfold Go.len; lia).
      change (Z.to_nat 1) with 1%nat. cbn [substring].
      now rewrite GoFacts.substring_prefix.
    + destruct (Ascii.eqb c "[").
      * replace (Z.to_nat (0 + 1 + Go.len body)) with (S (String.length body))
          by (unfold Go.len; lia).
        cbn [Go.drop]. apply GoFacts.drop_app.
      * replace (Z.to_nat (0 + 1 + Go.len body + 1)) with (S (String.length (body ++ String c EmptyString)))
          by (unfold Go.len; rewrite GoFacts.length_app; cbn [String.length]; lia).
        cbn [Go.drop].
        replace (body ++ String c post) with ((body ++ String c EmptyString) ++ post)
          by (rewrite GoFacts.app_assoc; reflexivity).
        apply GoFacts.drop_app.
  - rewrite scanKey_stop; auto; try lia.
    2:{ intros H0 ->. destruct Hb as [Hb|Hb]; [reflexivity|discriminate|].
        destruct body; [now elim Hb|]. rewrite GoFacts.len_String in H0.
        pose proof (GoFacts.len_nonneg body). lia. }
    assert (Hks : keyStartOf (body ++ String c post) = 0).
    { destruct body as [|a body]; cbn [append keyStartOf].
      - destruct (Ascii.eqb_spec c "[") as [->|]; [|reflexivity].
        destruct Hb as [Hb|Hb]; [reflexivity|discriminate|now elim Hb].
      - cbn [plain] in Hp. apply andb_true_iff in Hp as [Ha _].
        apply negb_true_iff, not_separator in Ha as (-> & _). reflexivity. }
    rewrite Hks. unfold Go.slice, Go.sliceFrom. f_equal.
    + replace (Z.to_nat (0 + Go.len body - 0)) with (String.length body)
        by (unfold Go.len; lia).
      change (Z.to_nat 0) with 0%nat. now rewrite GoFacts.substring_prefix.
    + destruct (Ascii.eqb c "[").
      * replace (Z.to_nat (0 + Go.len body)) with (String.length body)
          by (unfold Go.len; lia).
        apply GoFacts.drop_app.
      * replace (Z.to_nat (0 + Go.len body + 1)) with (String.length (body ++ String c EmptyString))
          by (unfold Go.len; rewrite GoFacts.length_app; cbn [String.length]; lia).
        replace (body ++ String c post) with ((body ++ String c EmptyString) ++ post)
          by (rewrite GoFacts.app_assoc; reflexivity).
        apply GoFacts.drop_app.
Qed.

Lemma popNextVariable_plain bracket body :
  plain body = true ->
  popNextVariable (opening bracket ++ body) = (opening bracket ++ body, EmptyString).
Proof.
  intros Hp. unfold popNextVariable.
  destruct bracket; cbn [opening append scanKey].
  - rewrite Z.eqb_refl, Ascii.eqb_refl. cbn [andb]. now rewrite scanKey_plain.
  - now rewrite scanKey_plain.
Qed.


(** *** The loop ends *)

Lemma scanKey_bounds input : forall i k c,
  0 <= i -> scanKey i input = Some (k, c) ->
  i <= k < i + Go.len input /\ (Ascii.eqb c "[" = true -> 0 < k).
Proof.
  induction input as [|a input IH]; intros i k c Hi H; [discriminate|].
  cbn [scanKey] in H. rewrite GoFacts.len_String.
  pose proof (GoFacts.len_nonneg input) as Hlen.
  destruct ((i =? 0) && Ascii.eqb a "[") eqn:E0.
  { apply IH in H; [|lia]. destruct H as [H1 H2]. split; [lia|auto]. }
  destruct (Ascii.eqb a "[") eqn:E1.
  { injection H as <- <-. rewrite andb_true_r in E0. apply Z.eqb_neq in E0.
    split; [lia|intros _; lia]. }
  destruct (Ascii.eqb a "]") eqn:E2.
  { injection H as <- <-. split; [lia|congruence]. }
  destruct (Ascii.eqb a ".") eqn:E3.
  { injection H as <- <-. split; [lia|congruence]. }
  apply IH in H; [|lia]. destruct H as [H1 H2]. split; [lia|auto].
Qed.

Lemma popNextVariable_shorter input :
  input <> EmptyString ->
  (String.length (snd (popNextVariable input)) < String.length input)%nat.
Proof.
  intros Hne. unfold popNextVariable.
  destruct (scanKey 0 input) as [[k c]|] eqn:E.
  - apply scanKey_bounds in E as [Hk Hc]; [|lia]. unfold Go.len in Hk.
    cbn [snd]. unfold Go.sliceFrom. rewrite GoFacts.drop_length.
    destruct (Ascii.eqb c "["); [specialize (Hc eq_refl)|]; lia.
  - cbn [snd]. destruct input; [now elim Hne|simpl; lia].
Qed.


(** *** No pass of the loop aborts *)

Lemma Length_nonneg l : 0 <= Length l.
Proof. unfold Length, Go.lenOf. lia. Qed.

Lemma resolveByIndex_in_range indexable index :
  - Length indexable <= index < Length indexable ->
  exists v,
    nth_error indexable
      (Z.to_nat (if index <? 0 then index + Length indexable else index)) = Some v
    /\ resolveByIndex indexable index = Continue v.
Proof.
  intros H. unfold resolveByIndex.
  destruct (Z.geb_spec index (Length indexable)); [lia|].
  destruct (Z.ltb_spec index (- Length indexable)); [lia|]. cbn [orb].
  set (index' := if index <? 0 then index + Length indexable else index).
  assert (Hr : 0 <= index' < Go.lenOf indexable).
  { subst index'. unfold Length in *. destruct (Z.ltb_spec index 0); lia. }
  destruct (GoFacts.index_in_range indexable index' Hr) as (v & Hv & Hn).
  exists v. unfold Index. rewrite Hv. auto.
Qed.

Lemma resolveByIndex_out_of_range indexable index :
  ~ (- Length indexable <= index < Length indexable) ->
  resolveByIndex indexable index
  = Leave (Go.Returned (Errorf_range index (Length indexable))).
Proof.
  intros H. unfold resolveByIndex.
  destruct (Z.geb_spec index (Length indexable)); [reflexivity|].
  destruct (Z.ltb_spec index (- Length indexable)); [reflexivity|]. lia.
Qed.

Lemma range_dec (n i : Z) : {- n <= i < n} + {~ (- n <= i < n)}.
Proof.
  destruct (Z_le_dec (- n) i); [destruct (Z_lt_dec i n)|]; [left|right|right]; lia.
Qed.

(** What leaves the loop from inside a pass is an error value. *)
Lemma resolveByIndex_leaves indexable index result :
  resolveByIndex indexable index = Leave result ->
  exists msg, result = Go.Returned (VError msg).
Proof.
  destruct (range_dec (Length indexable) index) as [H|H].
  - destruct (resolveByIndex_in_range _ _ H) as (v & _ & ->). discriminate.
  - rewrite (resolveByIndex_out_of_range _ _ H). intros [= <-]. unfold Errorf_range. eauto.
Qed.

Lemma resolveByName_leaves variable key result :
  resolveByName variable key = Leave result ->
  exists msg, result = Go.Returned (VError msg).
Proof.
  unfold resolveByName. destruct (asResolvable variable) as [resolve|].
  - destruct (resolve key) as [| msg | | | | | |]; cbn [asError]; try discriminate.
    intros [= <-]. eauto.
  - intros [= <-]. unfold Errorf_type. eauto.
Qed.

Lemma resolveKey_leaves variable key result :
  resolveKey variable key = Leave result ->
  exists msg, result = Go.Returned (VError msg).
Proof.
  unfold resolveKey. destruct (IsNil variable).
  { intros [= <-]. unfold Errorf_nil. eauto. }
  destruct (Go.Atoi key) as [index|]; [destruct (asIndexable variable)|];
    eauto using resolveByIndex_leaves, resolveByName_leaves.
Qed.

Lemma resolveLoop_exits : forall passes variable key rest result,
  resolveLoop passes variable key rest = Exited result ->
  exists msg, result = Go.Returned (VError msg).
Proof.
  induction passes as [|passes IH]; intros variable key rest result H.
  - destruct rest; discriminate.
  - destruct rest as [|a rest]; [discriminate|].
    cbn [resolveLoop] in H.
    destruct (popNextVariable (String a rest)) as [key' rest'].
    destruct (resolveKey variable key') eqn:E; [eauto|].
    injection H as <-. eauto using resolveKey_leaves.
Qed.


(** *** A path of one key *)

Lemma digit_not_separator c d : Go.digitOf c = Some d -> isSeparator c = false.
Proof.
  intros H. unfold isSeparator.
  destruct (Ascii.eqb_spec c "[") as [->|_]; [discriminate|].
  destruct (Ascii.eqb_spec c "]") as [->|_]; [discriminate|].
  destruct (Ascii.eqb_spec c ".") as [->|_]; [discriminate|]. reflexivity.
Qed.

Lemma parseDigits_plain s : forall acc n, Go.parseDigits acc s = Some n -> plain s = true.
Proof.
  induction s as [|c s IH]; intros acc n H; [reflexivity|].
  cbn [Go.parseDigits] in H. cbn [plain].
  destruct (Go.digitOf c) as [d|] eqn:E; [|discriminate].
  rewrite (digit_not_separator _ _ E). cbn [negb andb]. eauto.
Qed.

(** A key that [Atoi] accepts is one plain key. *)
Lemma Atoi_plain key index :
  Go.Atoi key = Some index -> plain key = true /\ key <> EmptyString.
Proof.
  unfold Go.Atoi. destruct key as [|c key]; [discriminate|].
  intros H. split; [|discriminate].
  assert (Hbody : forall neg ds v, Go.atoiDigits neg ds = Some v -> plain ds = true).
  { intros neg ds v Hd. unfold Go.atoiDigits in Hd. destruct ds; [discriminate|].
    destruct (Go.parseDigits 0 (String a ds)) eqn:E; [|discriminate].
    eauto using parseDigits_plain. }
  destruct (Ascii.eqb_spec c "-") as [->|_].
  { apply Hbody in H. cbn [plain]. now rewrite H. }
  destruct (Ascii.eqb_spec c "+") as [->|_].
  { apply Hbody in H. cbn [plain]. now rewrite H. }
  eauto.
Qed.

Lemma ResolveVariable_one_key variable key :
  asError variable = None -> plain key = true -> key <> EmptyString ->
  ResolveVariable variable key
  = Some match resolveKey variable key with
         | Continue variable' => checkResolved variable' key
         | Leave result => result
         end.
Proof.
  intros He Hp Hne. unfold ResolveVariable. rewrite He.
  destruct key as [|c key]; [now elim Hne|].
  assert (Hs : stripDot (String c key) = String c key).
  { cbn [stripDot]. cbn [plain] in Hp. apply andb_true_iff in Hp as [Hc _].
    apply negb_true_iff, not_separator in Hc as (_ & _ & ->). reflexivity. }
  rewrite Hs. cbn [String.length resolveLoop].
  pose proof (popNextVariable_plain false (String c key) Hp) as Hpop.
  cbn [opening append] in Hpop. rewrite Hpop.
  destruct (resolveKey variable (String c key)); [|reflexivity].
  destruct (String.length key); reflexivity.
Qed.

Lemma indexable_not_error variable indexable :
  asIndexable variable = Some indexable -> asError variable = None.
Proof. destruct variable; cbn; congruence. Qed.

Lemma resolveKey_indexable variable key indexable index :
  IsNil variable = false -> asIndexable variable = Some indexable ->
  Go.Atoi key = Some index ->
  resolveKey variable key = resolveByIndex indexable index.
Proof. intros Hn Hi Ha. unfold resolveKey. now rewrite Hn, Ha, Hi. Qed.

(** The variable a walk over the whole path ends with, if no pass leaves. *)
Lemma ResolveVariable_walk variable key :
  asError variable = None -> key <> EmptyString ->
  ResolveVariable variable key
  = match resolveLoop (String.length (stripDot key)) variable (stripDot key) (stripDot key) with
    | Finished variable' key' => Some (checkResolved variable' key')
    | Exited result => Some result
    | Diverged => None
    end.
Proof.
  intros He Hne. unfold ResolveVariable. rewrite He. destruct key; [now elim Hne|reflexivity].
Qed.

Lemma checkResolved_panics variable key p :
  checkResolved variable key = Go.Panicked p <->
  snd (ToXAtom variable) <> None /\ isAtomizable variable = false
  /\ p = panic_unsupported key variable.
Proof.
  unfold checkResolved.
  destruct (ToXAtom variable) as [[v t] [e|]]; cbn [snd].
  - destruct (isAtomizable variable); split.
    + discriminate.
    + intros (_ & H & _). discriminate.
    + intros [= <-]. repeat split. discriminate.
    + intros (_ & _ & ->). reflexivity.
  - split; [discriminate|]. intros (H & _). now elim H.
Qed.


Example ResolveVariable_last_item :
  ResolveVariable sampleList "[-1]" = Some (Go.Returned (VString "c")).
Proof. reflexivity. Qed.
Example ResolveVariable_unknown_key :
  ResolveVariable sampleMap "foo.bar" = Some (Go.Returned (VError "no key 'foo' in map")).
Proof. reflexivity. Qed.
Example ResolveVariable_of_text :
  ResolveVariable sampleList "0.length"
  = Some (Go.Returned (VError "can't resolve key 'length' of type string")).
Proof. reflexivity. Qed.

(** *** A failure at any depth of the path *)





(** *** The claims on the resolver *)

(** C3.  A key that parses as the integer [index], looked up in a non-nil
    indexable value of [n] items: for [-n <= index < n] the pass goes on
    with the item at [index], counted from the end when [index] is
    negative, and a path made of that key alone resolves to that item (after
    the check of the resolved value); for every other [index] the pass, and
    the resolver, return the error "index ... out of range for ... items"
    as a value. *)
Theorem ResolveVariable_index variable key indexable index :
  IsNil variable = false ->
  asIndexable variable = Some indexable ->
  Go.Atoi key = Some index ->
  (- Length indexable <= index < Length indexable ->
   exists item,
     nth_error indexable
       (Z.to_nat (if index <? 0 then index + Length indexable else index)) = Some item
     /\ resolveKey variable key = Continue item
     /\ ResolveVariable variable key = Some (checkResolved item key))
  /\ (~ (- Length indexable <= index < Length indexable) ->
      resolveKey variable key
      = Leave (Go.Returned (Errorf_range index (Length indexable)))
      /\ ResolveVariable variable key
         = Some (Go.Returned (Errorf_range index (Length indexable)))).
Proof.
  intros Hnil Hidx Hatoi.
  pose proof (resolveKey_indexable _ _ _ _ Hnil Hidx Hatoi) as Hstep.
  destruct (Atoi_plain _ _ Hatoi) as [Hplain Hne].
  pose proof (ResolveVariable_one_key variable key
                (indexable_not_error _ _ Hidx) Hplain Hne) as Hone.
  split; intros Hrange.
  - destruct (resolveByIndex_in_range _ _ Hrange) as (item & Hnth & Hby).
    exists item. rewrite Hone, Hstep, Hby. auto.
  - rewrite Hone, Hstep, (resolveByIndex_out_of_range _ _ Hrange). auto.
Qed.

Lemma ResolveVariable_index_witness :
  ResolveVariable sampleList "-1" = Some (Go.Returned (VString "c"))
  /\ ResolveVariable sampleList "3" = Some (Go.Returned (VError "index 3 out of range for 3 items")).
Proof.
  split.
  - destruct (proj1 (ResolveVariable_index sampleList "-1" sampleItems (-1)
                       eq_refl eq_refl eq_refl)) as (item & Hnth & _ & H).
    + cbn. lia.
    + rewrite H. cbn in Hnth. injection Hnth as <-. reflexivity.
  - apply (proj2 (ResolveVariable_index sampleList "3" sampleItems 3
                    eq_refl eq_refl eq_refl)).
    cbn. lia.
Defined.

(** C4, as amended.  A key ends at the first [.] or []], or at the first
    [[] that is not the first character, whether or not a quote was opened
    before it; the text up to there, without a leading [[] and without the
    double quotes around it, is the key, and the rest starts after the [.]
    or []], or at the [[].  A path without such a character is one key.  A
    bracketed quoted key whose text holds none of [.], [[], []] comes back
    as one key, with its other characters kept. *)
Theorem popNextVariable_segments bracket body post :
  plain body = true ->
  (forall c,
      isSeparator c = true ->
      (c = "["%char -> bracket = true \/ body <> EmptyString) ->
      popNextVariable (opening bracket ++ body ++ String c post)
      = (Go.Trim body Go.dquote, if Ascii.eqb c "[" then String c post else post))
  /\ popNextVariable (opening bracket ++ body) = (opening bracket ++ body, EmptyString)
  /\ popNextVariable ("[" ++ quoted body ++ "]" ++ post) = (Go.Trim body Go.dquote, post).
Proof.
  intros Hp. split; [|split].
  - intros c Hc Hb. now apply popNextVariable_stop.
  - now apply popNextVariable_plain.
  - rewrite <- GoFacts.Trim_quoted.
    apply (popNextVariable_stop true (quoted body) "]" post); auto.
    unfold quoted. cbn [plain]. change (isSeparator Go.dquote) with false. cbn [negb andb].
    clear post. induction body as [|a body IH]; [reflexivity|].
    cbn [append plain] in *. apply andb_true_iff in Hp as [-> Hp]. auto.
Qed.

Lemma popNextVariable_segments_witness :
  popNextVariable ("[" ++ quoted "my key" ++ "]" ++ ".name") = ("my key", ".name").
Proof.
  exact (proj2 (proj2 (popNextVariable_segments true "my key" ".name" eq_refl))).
Defined.

(** C4 as it was stated fails: a quoted key with a [.] inside is cut at
    that [.], the quotes do not protect it. *)
Lemma popNextVariable_quoted_separator :
  popNextVariable ("[" ++ quoted "my.key" ++ "]")
  = ("my", "key" ++ String Go.dquote "]")
  /\ popNextVariable ("[" ++ quoted "my.key" ++ "]") <> ("my.key", EmptyString).
Proof. split; [reflexivity|discriminate]. Qed.



End utilsFacts.

(** ** Numbers and dicts *)

Module typesFacts.
Import types.

(** *** The order of [sort.Strings] *)

Import Spec.

Lemma le_cases a b : le a b <-> a = b \/ OrderedTypeEx.String_as_OT.lt a b.
Proof.
  unfold le, String.leb.
  pose proof (OrderedTypeEx.String_as_OT.cmp_eq a b) as He.
  pose proof (OrderedTypeEx.String_as_OT.cmp_lt a b) as Hl.
  unfold OrderedTypeEx.String_as_OT.cmp in *.
  destruct (String.compare a b); split; intros H; auto.
  - left. now apply He.
  - right. now apply Hl.
  - discriminate.
  - destruct H as [H|H]; [apply He in H|apply Hl in H]; discriminate.
Qed.

Lemma le_trans a b c : le a b -> le b c -> le a c.
Proof.
  rewrite !le_cases. intros [->|H1] [->|H2]; auto.
  right. eapply OrderedTypeEx.String_as_OT.lt_trans; eauto.
Qed.

Lemma le_antisym a b : le a b -> le b a -> a = b.
Proof. apply String.leb_antisym. Qed.

Lemma le_total a b : le a b \/ le b a.
Proof. apply String.leb_total. Qed.

Lemma insertSorted_perm k l : Permutation (insertSorted k l) (k :: l).
Proof.
  induction l as [|k' l IH]; cbn [insertSorted]; [reflexivity|].
  destruct (String.leb k k'); [reflexivity|].
  rewrite IH. apply perm_swap.
Qed.

Lemma sortStrings_perm l : Permutation (sortStrings l) l.
Proof.
  induction l as [|k l IH]; cbn [sortStrings]; [reflexivity|].
  rewrite insertSorted_perm. now constructor.
Qed.

Lemma insertSorted_sorted k l :
  StronglySorted le l -> StronglySorted le (insertSorted k l).
Proof.
  induction 1 as [|k' l Hs IH Hall]; cbn [insertSorted].
  - repeat constructor.
  - destruct (String.leb k k') eqn:E.
    + constructor; [now constructor|]. constructor; [exact E|].
      eapply Forall_impl; [|exact Hall]. intros x Hx. eapply le_trans; eauto.
    + constructor; [exact IH|].
      assert (Hk : le k' k).
      { destruct (le_total k k') as [H|H]; [unfold le in H; congruence|exact H]. }
      eapply Permutation_Forall; [symmetry; apply insertSorted_perm|].
      now constructor.
Qed.

Lemma sortStrings_sorted l : StronglySorted le (sortStrings l).
Proof.
  induction l as [|k l IH]; cbn [sortStrings]; [constructor|].
  now apply insertSorted_sorted.
Qed.

(** Two ascending lists with the same elements are the same list. *)
Lemma sorted_unique : forall l1 l2,
  StronglySorted le l1 -> StronglySorted le l2 -> Permutation l1 l2 -> l1 = l2.
Proof.
  induction l1 as [|a l1 IH]; intros l2 H1 H2 Hp.
  - apply Permutation_nil in Hp. now subst.
  - destruct l2 as [|b l2]; [symmetry in Hp; now apply Permutation_nil in Hp|].
    inversion H1 as [|? ? Hs1 Ha]; subst. inversion H2 as [|? ? Hs2 Hb]; subst.
    assert (a = b) as ->.
    { assert (Hin1 : In a (b :: l2)) by (eapply Permutation_in; [exact Hp|now left]).
      assert (Hin2 : In b (a :: l1))
        by (eapply Permutation_in; [symmetry; exact Hp|now left]).
      destruct Hin1 as [->|Hin1]; [reflexivity|].
      destruct Hin2 as [->|Hin2]; [reflexivity|].
      rewrite Forall_forall in Ha, Hb. apply le_antisym; auto. }
    f_equal. apply IH; auto. eapply Permutation_cons_inv; eauto.
Qed.

Lemma sortStrings_unique l1 l2 : Permutation l1 l2 -> sortStrings l1 = sortStrings l2.
Proof.
  intros Hp. apply sorted_unique; auto using sortStrings_sorted.
  rewrite !sortStrings_perm. exact Hp.
Qed.

Section Facts.
Context {decimal : DecimalLibrary}.
Variable Describe : XValue -> string.
Variable ToXText : XValue -> string * option XError.
Variable XError_ToXText : XError -> string.

(** *** Looking up a map whose keys are unique *)

Lemma mapGet_absent (values : list (string * XValue)) k :
  ~ In k (Keys values) -> mapGet values k = XNil.
Proof.
  induction values as [|[k' v] values IH]; cbn [mapGet Keys map fst]; [reflexivity|].
  intros Hn. destruct (String.eqb_spec k k') as [->|_].
  - elim Hn. now left.
  - apply IH. intros Hin. apply Hn. now right.
Qed.

Lemma mapGet_present (values : list (string * XValue)) k v :
  NoDup (Keys values) -> In (k, v) values -> mapGet values k = v.
Proof.
  induction values as [|[k' v'] values IH]; cbn [mapGet Keys map fst]; [contradiction|].
  intros Hnd [Heq|Hin].
  - injection Heq as -> ->. now rewrite String.eqb_refl.
  - inversion Hnd as [|? ? Hk Hnd']; subst.
    destruct (String.eqb_spec k k') as [->|_]; [|now apply IH].
    elim Hk. change k' with (fst (k', v)). now apply in_map.
Qed.

Lemma mapGet_perm (d1 d2 : list (string * XValue)) k :
  NoDup (Keys d1) -> Permutation d1 d2 -> mapGet d1 k = mapGet d2 k.
Proof.
  intros Hnd Hp.
  assert (Hnd2 : NoDup (Keys d2)).
  { eapply Permutation_NoDup; [|exact Hnd]. now apply Permutation_map. }
  destruct (in_dec string_dec k (Keys d1)) as [Hin|Hout].
  - apply in_map_iff in Hin as ([k' v] & Hk & Hin). cbn [fst] in Hk. subst k'.
    rewrite (mapGet_present d1 k v Hnd Hin).
    symmetry. apply mapGet_present; auto. eapply Permutation_in; eauto.
  - rewrite (mapGet_absent d1 k Hout). symmetry. apply mapGet_absent.
    intros Hin. apply Hout. eapply Permutation_in; [|exact Hin].
    apply Permutation_map. now symmetry.
Qed.

Lemma xdict_ToXText_perm (d1 d2 : list (string * XValue)) :
  NoDup (Keys d1) -> Permutation d1 d2 ->
  xdict_ToXText ToXText XError_ToXText d1 = xdict_ToXText ToXText XError_ToXText d2.
Proof.
  intros Hnd Hp. unfold xdict_ToXText.
  rewrite (sortStrings_unique (Keys d1) (Keys d2)) by now apply Permutation_map.
  do 2 f_equal. f_equal. apply map_ext. intros k. unfold pairText.
  now rewrite (mapGet_perm d1 d2 k Hnd Hp).
Qed.

(** *** The claims on numbers and dicts *)

(** C5, as amended.  [ToXNumber] hands a number back unchanged and parses
    a text with the decimal parser; a text that does not parse and every
    other kind but one (nil, boolean, datetime, array, dict) give the
    zero number together with the error "unable to convert ... to a
    number".  The exception is an error value: it gives the zero number
    together with that same error, not a conversion error. *)
Theorem ToXNumber_cases :
  (forall n, ToXNumber Describe (XNumber n) = (n, None))
  /\ (forall s d,
         NewFromString s = Some d -> ToXNumber Describe (XText s) = (d, None))
  /\ (forall s,
         NewFromString s = None ->
         ToXNumber Describe (XText s)
         = (Zero, Some (conversionError Describe (XText s))))
  /\ (forall e, ToXNumber Describe (XErrorValue e) = (Zero, Some e))
  /\ (forall x,
         match x with
         | XNumber _ | XText _ | XErrorValue _ => True
         | _ => ToXNumber Describe x = (Zero, Some (conversionError Describe x))
         end).
Proof.
  repeat apply conj.
  - reflexivity.
  - intros s d H. unfold ToXNumber. cbn [IsNil negb]. now rewrite H.
  - intros s H. unfold ToXNumber. cbn [IsNil negb]. now rewrite H.
  - reflexivity.
  - intros []; trivial; reflexivity.
Qed.

(** [ToInteger] asks [ToXNumber]: an error from there is passed on with 0;
    otherwise the call fails with the error "number value ... is out of
    range for an integer" exactly when the [int64] that [IntPart] hands
    back lies outside [-2^31 .. 2^31-1], and returns that [int64] when it
    lies inside. *)
Lemma ToInteger_range x :
  (forall number err,
      ToXNumber Describe x = (number, Some err) ->
      ToInteger Describe x = (0, Some err))
  /\ (forall number,
         ToXNumber Describe x = (number, None) ->
         (- 2 ^ 31 <= IntPart number <= 2 ^ 31 - 1 ->
          ToInteger Describe x = (IntPart number, None))
         /\ (~ (- 2 ^ 31 <= IntPart number <= 2 ^ 31 - 1) ->
             ToInteger Describe x = (0, Some (rangeError number)))
         /\ (snd (ToInteger Describe x) = Some (rangeError number)
             <-> ~ (- 2 ^ 31 <= IntPart number <= 2 ^ 31 - 1))).
Proof.
  split.
  - intros number err H. unfold ToInteger. now rewrite H.
  - intros number H. unfold ToInteger. rewrite H.
    change Go.MinInt32 with (- 2 ^ 31). change Go.MaxInt32 with (2 ^ 31 - 1).
    destruct (Z.ltb_spec (IntPart number) (- 2 ^ 31));
      [|destruct (Z.gtb_spec (IntPart number) (2 ^ 31 - 1))]; cbn [orb snd].
    + repeat split; auto; lia.
    + repeat split; auto; lia.
    + repeat split; auto; try lia; discriminate.
Qed.

(** C7.  The text of a dict lists its keys in ascending order, each key
    once, as [{k: v, ...}]; two dicts with the same entries, in whatever
    order the map hands them out, have the same text; and the dict built
    by putting [b: 1] then [a: 2], or [a: 2] then [b: 1], has the text
    [{a: 2, b: 1}]. *)
Theorem xdict_ToXText_sorted :
  (forall d,
      StronglySorted Spec.le (sortStrings (Keys d))
      /\ Permutation (sortStrings (Keys d)) (Keys d)
      /\ xdict_ToXText ToXText XError_ToXText d
         = "{" ++ Go.Join (map (pairText ToXText XError_ToXText d)
                               (sortStrings (Keys d))) ", " ++ "}")
  /\ (forall d1 d2,
         NoDup (Keys d1) -> Permutation d1 d2 ->
         xdict_ToXText ToXText XError_ToXText d1
         = xdict_ToXText ToXText XError_ToXText d2)
  /\ (forall one two,
         ToXText one = ("1", None) -> ToXText two = ("2", None) ->
         Go.mapOutcome
           (fun d => xdict_ToXText ToXText XError_ToXText (Go.mapEntries d))
           (Go.andThen (Put NewEmptyXDict "b" one) (fun d => Put d "a" two))
         = Go.Returned "{a: 2, b: 1}"
         /\ Go.mapOutcome
              (fun d => xdict_ToXText ToXText XError_ToXText (Go.mapEntries d))
              (Go.andThen (Put NewEmptyXDict "a" two) (fun d => Put d "b" one))
            = Go.Returned "{a: 2, b: 1}").
Proof.
  split; [|split].
  - intros d. auto using sortStrings_sorted, sortStrings_perm.
  - apply xdict_ToXText_perm.
  - intros one two H1 H2.
    cbn [NewEmptyXDict Put Go.andThen Go.mapOutcome Go.mapEntries Go.mapAssign
         String.eqb Ascii.eqb Bool.eqb].
    unfold xdict_ToXText, pairText.
    cbn [Keys map fst sortStrings insertSorted].
    cbv [String.leb String.compare Ascii.compare]. cbn.
    rewrite H1, H2. split; reflexivity.
Qed.

(** X26.  Within 64 bits nothing is lost: for a number whose integer part
    fits an [int64], [ToInteger] fails with the range error
    exactly when the integer part of the number lies outside
    [-2^31 .. 2^31-1], and returns the integer part when it lies inside. *)
Lemma ToInteger_within_int64 x number :
  ToXNumber Describe x = (number, None) ->
  - 2 ^ 63 <= BigInt number <= 2 ^ 63 - 1 ->
  (- 2 ^ 31 <= BigInt number <= 2 ^ 31 - 1 ->
   ToInteger Describe x = (BigInt number, None))
  /\ (~ (- 2 ^ 31 <= BigInt number <= 2 ^ 31 - 1) ->
      ToInteger Describe x = (0, Some (rangeError number))).
Proof.
  intros Hx H64.
  destruct (proj2 (ToInteger_range x) number Hx) as (Hin & Hout & _).
  unfold IntPart in Hin, Hout. rewrite (GoFacts.int64_fits _ H64) in Hin, Hout.
  auto.
Qed.

End Facts.

Example ToXNumber_of_text :
  ToXNumber (decimal := Spec.decimalModel) Spec.describeModel (XText "abc")
  = (Spec.mkDec 0 0, Some (NewXErrorf "unable to convert abc to a number")).
Proof. reflexivity. Qed.
Example stringDec_fraction : Spec.stringDec (Spec.mkDec (-12345) (-3)) = "-12.345".
Proof. reflexivity. Qed.
Example stringDec_trailing : Spec.stringDec (Spec.mkDec 1250 (-2)) = "12.5".
Proof. reflexivity. Qed.
Example stringDec_small : Spec.stringDec (Spec.mkDec 5 (-3)) = "0.005".
Proof. reflexivity. Qed.
Example ToXNumber_of_number :
  ToXNumber (decimal := Spec.decimalModel) Spec.describeModel (Spec.number 5 0)
  = (Spec.mkDec 5 0, None).
Proof. reflexivity. Qed.

Lemma ToXNumber_cases_witness :
  ToXNumber (decimal := Spec.decimalModel) Spec.describeModel (XText "12.50")
  = (Spec.mkDec 1250 (-2), None)
  /\ ToXNumber (decimal := Spec.decimalModel) Spec.describeModel (XText "abc")
     = (Spec.mkDec 0 0, Some (NewXErrorf "unable to convert abc to a number")).
Proof.
  split.
  - apply (proj1 (proj2 (ToXNumber_cases (decimal := Spec.decimalModel) Spec.describeModel))).
    reflexivity.
  - apply (proj1 (proj2 (proj2
             (ToXNumber_cases (decimal := Spec.decimalModel) Spec.describeModel)))).
    reflexivity.
Defined.

(** C5 as it was stated fails on an error value: the error that comes
    back is the one that went in, not a conversion error. *)
Lemma ToXNumber_of_error :
  ToXNumber (decimal := Spec.decimalModel) Spec.describeModel
    (XErrorValue (NewXErrorf "no key 'foo' in map"))
  = (Spec.mkDec 0 0, Some (NewXErrorf "no key 'foo' in map"))
  /\ ToXNumber (decimal := Spec.decimalModel) Spec.describeModel
       (XErrorValue (NewXErrorf "no key 'foo' in map"))
     <> (Spec.mkDec 0 0,
         Some (conversionError Spec.describeModel
                 (XErrorValue (NewXErrorf "no key 'foo' in map")))).
Proof. split; [reflexivity|discriminate]. Qed.

Lemma ToInteger_range_witness :
  ToInteger (decimal := Spec.decimalModel) Spec.describeModel (XText "12345678901")
  = (0, Some (NewXErrorf "number value 12345678901 is out of range for an integer"))
  /\ ToInteger (decimal := Spec.decimalModel) Spec.describeModel (XText "-7.9")
     = (-7, None)
  /\ ToInteger (decimal := Spec.decimalModel) Spec.describeModel (XBoolean true)
     = (0, Some (NewXErrorf "unable to convert boolean to a number")).
Proof.
  split; [|split].
  - apply (proj2 (ToInteger_range (decimal := Spec.decimalModel) Spec.describeModel
                    (XText "12345678901")) (Spec.mkDec 12345678901 0) eq_refl).
    cbn. lia.
  - apply (proj2 (ToInteger_range (decimal := Spec.decimalModel) Spec.describeModel
                    (XText "-7.9")) (Spec.mkDec (-79) (-1)) eq_refl).
    cbn. lia.
  - apply (proj1 (ToInteger_range (decimal := Spec.decimalModel) Spec.describeModel
                    (XBoolean true)) (Spec.mkDec 0 0)).
    reflexivity.
Defined.

(** C6 on a number beyond 64 bits.  The text 18446744073709551621 is the
    number 2^64 + 5: [ToXNumber] parses it, its integer part is 2^64 + 5 and
    lies far above 2^31 - 1, yet [IntPart] hands back 5 and [ToInteger]
    returns 5 without an error, for the text and for the number alike; the
    same happens below zero.  The integer part 2^63 + 5 comes back negative,
    which the range test then rejects. *)
Theorem ToInteger_beyond_int64 :
  ToXNumber (decimal := Spec.decimalModel) Spec.describeModel (XText "18446744073709551621")
  = (Spec.mkDec 18446744073709551621 0, None)
  /\ BigInt (DecimalLibrary := Spec.decimalModel) (Spec.mkDec 18446744073709551621 0)
     = 2 ^ 64 + 5
  /\ 2 ^ 31 - 1
     < BigInt (DecimalLibrary := Spec.decimalModel) (Spec.mkDec 18446744073709551621 0)
  /\ IntPart (decimal := Spec.decimalModel) (Spec.mkDec 18446744073709551621 0) = 5
  /\ ToInteger (decimal := Spec.decimalModel) Spec.describeModel
       (XText "18446744073709551621")
     = (5, None)
  /\ ToInteger (decimal := Spec.decimalModel) Spec.describeModel
       (Spec.number 18446744073709551621 0)
     = (5, None)
  /\ ToInteger (decimal := Spec.decimalModel) Spec.describeModel
       (XText "-18446744073709551621.9")
     = (-5, None)
  /\ ToInteger (decimal := Spec.decimalModel) Spec.describeModel
       (XText "9223372036854775813")
     = (0, Some (NewXErrorf
                   "number value 9223372036854775813 is out of range for an integer")).
Proof. repeat split; vm_compute; reflexivity. Qed.

Lemma ToInteger_within_int64_witness :
  ToInteger (decimal := Spec.decimalModel) Spec.describeModel (XText "2147483648")
  = (0, Some (NewXErrorf "number value 2147483648 is out of range for an integer"))
  /\ ToInteger (decimal := Spec.decimalModel) Spec.describeModel (XText "-2147483648.5")
     = (-2147483648, None).
Proof.
  split.
  - apply (proj2 (ToInteger_within_int64 (decimal := Spec.decimalModel) Spec.describeModel
                    (XText "2147483648") (Spec.mkDec 2147483648 0) eq_refl
                    ltac:(cbn; lia))).
    cbn. lia.
  - apply (proj1 (ToInteger_within_int64 (decimal := Spec.decimalModel) Spec.describeModel
                    (XText "-2147483648.5") (Spec.mkDec (-21474836485) (-1)) eq_refl
                    ltac:(cbn; lia))).
    cbn. lia.
Defined.

Lemma xdict_ToXText_sorted_witness :
  Go.mapOutcome
    (fun d => xdict_ToXText (decimal := Spec.decimalModel) Spec.toXTextModel errorMessage
                (Go.mapEntries d))
    (Go.andThen (Put NewEmptyXDict "b" (Spec.number 1 0))
                (fun d => Put d "a" (Spec.number 2 0)))
  = Go.Returned "{a: 2, b: 1}"
  /\ xdict_ToXText (decimal := Spec.decimalModel) Spec.toXTextModel errorMessage
       [("b", Spec.number 1 0); ("a", Spec.number 2 0)]
     = xdict_ToXText (decimal := Spec.decimalModel) Spec.toXTextModel errorMessage
         [("a", Spec.number 2 0); ("b", Spec.number 1 0)].
Proof.
  split.
  - apply (proj1 (proj2 (proj2 (xdict_ToXText_sorted (decimal := Spec.decimalModel)
                                  Spec.toXTextModel errorMessage))
                    (Spec.number 1 0) (Spec.number 2 0) eq_refl eq_refl)).
  - apply (proj1 (proj2 (xdict_ToXText_sorted (decimal := Spec.decimalModel)
                           Spec.toXTextModel errorMessage))).
    + cbn. repeat constructor; cbn; intuition discriminate.
    + apply perm_swap.
Defined.

End typesFacts.

(** ** Slices that share arrays *)

Module sliceFacts.
Import Go.
Local Open Scope list_scope.

Section Facts.
Context {A : Type}.
Variable zero : A.
Variable growCap : nat -> nat.

Lemma setNth_length {X : Type} (x : X) : forall n l,
  List.length (setNth n x l) = List.length l.
Proof.
  induction n as [|n IH]; intros [|y l]; cbn [setNth List.length]; auto.
Qed.

Lemma nth_setNth_same {X : Type} (x d : X) : forall n l,
  (n < List.length l)%nat -> nth n (setNth n x l) d = x.
Proof.
  induction n as [|n IH]; intros [|y l] H; cbn [List.length] in H; try lia.
  - reflexivity.
  - cbn [setNth nth]. apply IH. lia.
Qed.

Lemma nth_setNth_other {X : Type} (x d : X) : forall n m l,
  n <> m -> nth m (setNth n x l) d = nth m l d.
Proof.
  induction n as [|n IH]; intros [|m] [|y l] H; cbn [setNth nth]; auto; try congruence.
Qed.

Lemma skipn_setNth {X : Type} (x : X) k : forall off l,
  skipn off (setNth (off + k) x l) = setNth k x (skipn off l).
Proof.
  induction off as [|off IH]; intros l; [reflexivity|].
  destruct l as [|y l]; cbn [Nat.add setNth skipn].
  - destruct k; reflexivity.
  - apply IH.
Qed.

Lemma firstn_setNth_snoc {X : Type} (x : X) : forall k l,
  (k < List.length l)%nat -> firstn (S k) (setNth k x l) = (firstn k l ++ [x])%list.
Proof.
  induction k as [|k IH]; intros [|y l] H; cbn [List.length] in H; try lia.
  - reflexivity.
  - cbn [setNth]. rewrite !firstn_cons. cbn [app]. f_equal. apply IH. lia.
Qed.

Lemma elements_length (h : Store A) s :
  wellFormed h s -> List.length (elements h s) = sLen s.
Proof.
  intros [Hlen [H0|[_ Hcap]]]; unfold elements; rewrite length_firstn, length_skipn; lia.
Qed.

(** [append] adds the element at the end, and writes only to the array
    of the slice it is given, or to a new array: an array below [b] is
    left as it is when the slice has no array or has an array from [b]
    on. *)
Lemma append_spec (h : Store A) s x b :
  wellFormed h s ->
  (sCap s = 0 \/ b <= sArray s)%nat ->
  (b <= List.length h)%nat ->
  wellFormed (fst (append zero growCap h s x)) (snd (append zero growCap h s x))
  /\ (b <= sArray (snd (append zero growCap h s x)))%nat
  /\ sCap (snd (append zero growCap h s x)) <> 0%nat
  /\ (List.length h <= List.length (fst (append zero growCap h s x)))%nat
  /\ (forall a, (a < b)%nat ->
                arrayOf (fst (append zero growCap h s x)) a = arrayOf h a)
  /\ elements (fst (append zero growCap h s x)) (snd (append zero growCap h s x))
     = (elements h s ++ [x])%list.
Proof.
  intros Hwf Hfresh Hb.
  pose proof (elements_length h s Hwf) as Hel.
  destruct Hwf as [Hlen Hcap]. unfold append.
  destruct (Nat.ltb_spec (sLen s) (sCap s)) as [Hlt|Hge]; cbn [fst snd].
  - destruct Hcap as [H0|[Harr Hwin]]; [lia|].
    destruct Hfresh as [H0|Hfresh]; [lia|].
    assert (Hsame : arrayOf (setNth (sArray s)
                      (setNth (sOffset s + sLen s) x (arrayOf h (sArray s))) h) (sArray s)
                    = setNth (sOffset s + sLen s) x (arrayOf h (sArray s))).
    { unfold arrayOf at 1. now apply nth_setNth_same. }
    repeat apply conj; cbn [sLen sCap sArray sOffset].
    + lia.
    + right. rewrite setNth_length. split; [exact Harr|].
      rewrite Hsame, setNth_length. exact Hwin.
    + exact Hfresh.
    + lia.
    + rewrite setNth_length. lia.
    + intros a Ha. unfold arrayOf at 1. rewrite nth_setNth_other by lia. reflexivity.
    + unfold elements. cbn [sLen sCap sArray sOffset]. rewrite Hsame.
      rewrite skipn_setNth. apply firstn_setNth_snoc.
      rewrite length_skipn. lia.
  - set (pad := repeat zero (Nat.max (S (sLen s)) (growCap (sCap s)) - S (sLen s))).
    set (newarr := elements h s ++ x :: pad).
    assert (Hpad : List.length newarr = Nat.max (S (sLen s)) (growCap (sCap s))).
    { subst newarr pad. rewrite length_app. cbn [List.length].
      rewrite repeat_length, Hel. lia. }
    assert (Hnew : arrayOf (h ++ [newarr]) (List.length h) = newarr).
    { unfold arrayOf. rewrite app_nth2 by lia. now rewrite Nat.sub_diag. }
    repeat apply conj; cbn [sLen sCap sArray sOffset].
    + lia.
    + right. rewrite length_app. cbn [List.length]. split; [lia|].
      rewrite Hnew, Hpad. lia.
    + exact Hb.
    + lia.
    + rewrite length_app. lia.
    + intros a Ha. unfold arrayOf. apply app_nth1. lia.
    + unfold elements at 1. cbn [sLen sCap sArray sOffset]. rewrite Hnew.
      cbn [skipn]. subst newarr.
      replace (elements h s ++ x :: pad) with ((elements h s ++ [x]) ++ pad)
        by (rewrite <- app_assoc; reflexivity).
      rewrite firstn_app, length_app. cbn [List.length]. rewrite Hel.
      replace (S (sLen s) - (sLen s + 1))%nat with 0%nat by lia.
      rewrite firstn_O, app_nil_r. apply firstn_all2.
      rewrite length_app. cbn [List.length]. lia.
Qed.

(** A slice whose array is kept shows the same elements. *)
Lemma elements_kept (h h' : Store A) s :
  arrayOf h' (sArray s) = arrayOf h (sArray s) -> elements h' s = elements h s.
Proof. unfold elements. now intros ->. Qed.

End Facts.

End sliceFacts.

(** ** URN lists *)

Module flowsFacts.
Import Go flows Spec.
Local Open Scope list_scope.

Example WithScheme_tel :
  match WithScheme schemeModel doubling sampleStore sampleURNs "tel" with
  | Returned (h, matching) =>
      elements h matching = [urn "tel:+1"; urn "tel:+2"]
      /\ elements h sampleURNs = [urn "tel:+1"; urn "mailto:x"; urn "tel:+2"]
  | Panicked _ => False
  end.
Proof. vm_compute. split; reflexivity. Qed.

Section Facts.
Variable Scheme : string -> string.
Variable growCap : nat -> nat.

Lemma skipn_nth_error {X : Type} : forall i (l : list X) x,
  nth_error l i = Some x -> skipn i l = x :: skipn (S i) l.
Proof.
  induction i as [|i IH]; intros [|y l] x H; try discriminate.
  - now injection H as ->.
  - cbn [nth_error] in H. rewrite !skipn_cons. rewrite (IH _ _ H). reflexivity.
Qed.

(** The source list shows the same elements in every store that keeps
    the arrays of the store it was made in. *)
Lemma elements_source (h0 h : Store) (l : URNList) :
  wellFormed h0 l ->
  (forall a, (a < List.length h0)%nat -> arrayOf h a = arrayOf h0 a) ->
  elements h l = elements h0 l.
Proof.
  intros [Hlen [H0|[Harr _]]] Hkeep.
  - unfold elements. replace (sLen l) with 0%nat by lia. reflexivity.
  - apply sliceFacts.elements_kept. auto.
Qed.

Lemma rangeWithScheme_spec (h0 : Store) (l : URNList) scheme :
  wellFormed h0 l ->
  Forall (fun u => u <> None) (elements h0 l) ->
  forall n i h matching,
    (i + n = sLen l)%nat ->
    (List.length h0 <= List.length h)%nat ->
    (forall a, (a < List.length h0)%nat -> arrayOf h a = arrayOf h0 a) ->
    wellFormed h matching ->
    (sCap matching = 0 \/ List.length h0 <= sArray matching)%nat ->
    exists h' matching',
      rangeWithScheme Scheme growCap n (Z.of_nat i) l scheme h matching
      = Returned (h', matching')
      /\ (List.length h0 <= List.length h')%nat
      /\ (forall a, (a < List.length h0)%nat -> arrayOf h' a = arrayOf h0 a)
      /\ elements h' matching'
         = elements h matching ++ filter (hasScheme Scheme scheme) (skipn i (elements h0 l)).
Proof.
  intros Hwf Hsome.
  pose proof (sliceFacts.elements_length h0 l Hwf) as Hel.
  induction n as [|n IH]; intros i h matching Hi Hlen Hkeep Hm Hfresh.
  - exists h, matching. cbn [rangeWithScheme]. repeat split; auto.
    rewrite skipn_all2 by lia. cbn [filter]. now rewrite app_nil_r.
  - cbn [rangeWithScheme]. unfold read.
    rewrite (elements_source h0 h l Hwf Hkeep).
    destruct (GoFacts.index_in_range (elements h0 l) (Z.of_nat i)) as (u & Hu & Hnth).
    { unfold lenOf. lia. }
    rewrite Hu. rewrite Nat2Z.id in Hnth.
    rewrite (skipn_nth_error _ _ _ Hnth).
    assert (Hnn : u <> None).
    { rewrite Forall_forall in Hsome. apply Hsome. eapply nth_error_In; eauto. }
    destruct u as [u|]; [clear Hnn|now elim Hnn].
    replace (Z.of_nat i + 1)%Z with (Z.of_nat (S i)) by lia.
    cbn [filter hasScheme].
    destruct (String.eqb (Scheme (URN u)) scheme).
    + unfold appendURN.
      pose proof (sliceFacts.append_spec None growCap h matching (Some u)
                    (List.length h0) Hm Hfresh Hlen)
        as (Hwf' & Hfresh' & _ & Hlen' & Hkeep' & Hel').
      destruct (append None growCap h matching (Some u)) as [h1 m1].
      cbn [fst snd] in *.
      destruct (IH (S i) h1 m1) as (h' & m' & Hr & Hl & Hk & He); auto; try lia.
      { intros a Ha. rewrite Hkeep' by exact Ha. auto. }
      exists h', m'. repeat split; auto.
      rewrite He, Hel', <- app_assoc. reflexivity.
    + apply IH; auto. lia.
Qed.

(** C9.  On a well-formed list without nil pointers, [WithScheme]
    returns the URNs of the list whose scheme is the given one, in the
    order they have in the list, on an array of its own: every array of
    the store before the call is the same after it, and so the list shows
    the same elements in the same order. *)
Theorem WithScheme_filters (h : Store) (l : URNList) scheme :
  wellFormed h l ->
  Forall (fun u => u <> None) (elements h l) ->
  exists h' matching,
    WithScheme Scheme growCap h l scheme = Returned (h', matching)
    /\ elements h' matching = filter (hasScheme Scheme scheme) (elements h l)
    /\ elements h' l = elements h l
    /\ (forall a, (a < List.length h)%nat -> arrayOf h' a = arrayOf h a).
Proof.
  intros Hwf Hsome. unfold WithScheme.
  destruct (rangeWithScheme_spec h l scheme Hwf Hsome (sLen l) 0%nat h nilSlice)
    as (h' & m' & Hr & Hl & Hk & He); auto.
  - split; cbn; auto.
  - exists h', m'. change (Z.of_nat 0) with 0%Z in Hr. repeat split; auto.
    now apply elements_source.
Qed.

End Facts.

Lemma WithScheme_filters_witness :
  exists h' matching,
    WithScheme schemeModel doubling sampleStore sampleURNs "tel" = Returned (h', matching)
    /\ elements h' matching = [urn "tel:+1"; urn "tel:+2"]
    /\ elements h' sampleURNs = [urn "tel:+1"; urn "mailto:x"; urn "tel:+2"].
Proof.
  destruct (WithScheme_filters schemeModel doubling sampleStore sampleURNs "tel")
    as (h' & matching & Hr & Hm & Hl & _).
  - split; [cbn; lia|right; split; cbn; lia].
  - cbn. repeat constructor; discriminate.
  - exists h', matching. repeat split; assumption.
Defined.

End flowsFacts.

(** ** The status of a webhook call *)

Module actionsFacts.
Import actions.

Example callStatus_ok :
  callStatus {| Response_ := Some {| StatusCode := 200 |} |} None false = CallStatusSuccess.
Proof. reflexivity. Qed.
Example callStatus_gone :
  callStatus {| Response_ := Some {| StatusCode := 410 |} |} None true
  = CallStatusSubscriberGone.
Proof. reflexivity. Qed.
Example callStatus_gone_no_resthook :
  callStatus {| Response_ := Some {| StatusCode := 410 |} |} None false
  = CallStatusResponseError.
Proof. reflexivity. Qed.
Example callStatus_server_error :
  callStatus {| Response_ := Some {| StatusCode := 500 |} |} None false
  = CallStatusResponseError.
Proof. reflexivity. Qed.
Example callStatus_no_response :
  callStatus {| Response_ := None |} None false = CallStatusConnectionError.
Proof. reflexivity. Qed.

(** The test [StatusCode/100 == 2] with Go's division. *)
Lemma quot_100_is_2 status : Z.quot status 100 = 2 <-> 200 <= status < 300.
Proof.
  Z.quot_rem_to_equations. lia.
Qed.

(** C2.  The status of a call is a connection error when there is no
    response or the transport failed; otherwise "subscriber gone" for a
    resthook answered with 410; otherwise a success for a status from 200
    to 299; otherwise a response error. *)
Theorem callStatus_table call err isResthook :
  (Response_ call = None \/ err <> None ->
   callStatus call err isResthook = CallStatusConnectionError)
  /\ (forall response,
         Response_ call = Some response -> err = None ->
         (isResthook = true /\ StatusCode response = 410 ->
          callStatus call err isResthook = CallStatusSubscriberGone)
         /\ (~ (isResthook = true /\ StatusCode response = 410) ->
             200 <= StatusCode response < 300 ->
             callStatus call err isResthook = CallStatusSuccess)
         /\ (~ (isResthook = true /\ StatusCode response = 410) ->
             ~ (200 <= StatusCode response < 300) ->
             callStatus call err isResthook = CallStatusResponseError)).
Proof.
  unfold callStatus, StatusGone. split.
  - intros [-> | He]; [reflexivity|].
    destruct (Response_ call); destruct err; congruence.
  - intros response -> ->.
    pose proof (quot_100_is_2 (StatusCode response)) as Hq.
    destruct (Z.eqb_spec (StatusCode response) 410) as [H410|H410];
      destruct (Z.eqb_spec (Z.quot (StatusCode response) 100) 2) as [H2|H2];
      destruct isResthook; cbn [andb];
      repeat split; intros; try reflexivity; try tauto; try lia;
      try (exfalso; intuition congruence).
Qed.

Lemma callStatus_table_witness :
  callStatus {| Response_ := Some {| StatusCode := 204 |} |} None true = CallStatusSuccess
  /\ callStatus {| Response_ := None |} (Some "timeout") true = CallStatusConnectionError.
Proof.
  split.
  - apply (proj2 (callStatus_table {| Response_ := Some {| StatusCode := 204 |} |} None true)
             {| StatusCode := 204 |} eq_refl eq_refl).
    + cbn. intros [_ H]. discriminate.
    + cbn. lia.
  - apply (proj1 (callStatus_table {| Response_ := None |} (Some "timeout") true)).
    left. reflexivity.
Defined.

End actionsFacts.

(** ** The name modifier *)

Module modifiersFacts.
Import modifiers.
Local Open Scope list_scope.

Section Facts.
Variable Truncate : string -> Z -> string.

Lemma Apply_same m env contact log :
  Name contact = Name_ m -> Apply Truncate m env contact log = (contact, log, false).
Proof. intros H. unfold Apply. rewrite H, String.eqb_refl. reflexivity. Qed.

Lemma Apply_other m env contact log :
  Name contact <> Name_ m ->
  Apply Truncate m env contact log
  = (SetName contact (Truncate (Name_ m) (MaxValueLength env)),
     log ++ [NewContactNameChanged (Truncate (Name_ m) (MaxValueLength env))],
     true).
Proof.
  intros H. unfold Apply. apply String.eqb_neq in H. rewrite H. reflexivity.
Qed.

(** A name that the truncation keeps: the first call changes the contact
    and logs one event, the second changes and logs nothing. *)
Lemma Apply_twice_kept m env contact log :
  Name contact <> Name_ m ->
  Truncate (Name_ m) (MaxValueLength env) = Name_ m ->
  Apply Truncate m env contact log
  = (SetName contact (Name_ m), log ++ [NewContactNameChanged (Name_ m)], true)
  /\ Apply Truncate m env (SetName contact (Name_ m))
       (log ++ [NewContactNameChanged (Name_ m)])
     = (SetName contact (Name_ m), log ++ [NewContactNameChanged (Name_ m)], false).
Proof.
  intros Hne Hkept. rewrite (Apply_other _ _ _ _ Hne), Hkept.
  split; [reflexivity|]. now apply Apply_same.
Qed.

(** A name that the truncation cuts, whatever the truncation is: the
    contact never holds the name of the modifier, so the second call reports
    a change and logs an event again. *)
Lemma Apply_twice_cut m env contact log :
  Name contact <> Name_ m ->
  Truncate (Name_ m) (MaxValueLength env) <> Name_ m ->
  forall contact' log',
    Apply Truncate m env contact log = (contact', log', true) ->
    Apply Truncate m env contact' log'
    = (contact',
       log' ++ [NewContactNameChanged (Truncate (Name_ m) (MaxValueLength env))],
       true).
Proof.
  intros Hne Hcut contact' log' H.
  rewrite (Apply_other _ _ _ _ Hne) in H. injection H as <- <-.
  now rewrite Apply_other.
Qed.

End Facts.

(** C1 on a name longer than the limit.  With a limit of 3 characters,
    the modifier for the name Robert and a contact named Bob: the first
    call stores Rob, logs one event and reports a change; the second call on
    the contact it left stores Rob again, logs a second event and reports a
    change again. *)
Theorem Apply_twice_long_name :
  Apply Spec.truncateModel (NewName "Robert") {| MaxValueLength := 3 |} {| Name := "Bob" |} []
  = ({| Name := "Rob" |}, [NewContactNameChanged "Rob"], true)
  /\ Apply Spec.truncateModel (NewName "Robert") {| MaxValueLength := 3 |} {| Name := "Rob" |}
       [NewContactNameChanged "Rob"]
     = ({| Name := "Rob" |},
        [NewContactNameChanged "Rob"; NewContactNameChanged "Rob"], true).
Proof. split; reflexivity. Qed.

End modifiersFacts.

(** ** Indexing under the guard of the resolver *)

Module indexFacts.
Import Go.

Lemma ResolveVariable_panic variable key p :
  utils.ResolveVariable variable key = Some (Panicked p) -> exists msg, p = PanicMessage msg.
Proof.
  intros H.
  destruct (utils.asError variable) eqn:He.
  { unfold utils.ResolveVariable in H. rewrite He in H. discriminate. }
  destruct key as [|c key].
  { unfold utils.ResolveVariable in H. rewrite He in H. discriminate. }
  rewrite utilsFacts.ResolveVariable_walk in H by (auto; discriminate).
  destruct (utils.resolveLoop _ variable _ _) as [v k|r|] eqn:El.
  - injection H as H. apply utilsFacts.checkResolved_panics in H as (_ & _ & ->).
    unfold utils.panic_unsupported. eauto.
  - injection H as ->. apply utilsFacts.resolveLoop_exits in El as [msg Hm]. discriminate.
  - discriminate.
Qed.

(** C10.  [Index] on an array or an URN list is the bare [l[index]]: for
    [0 <= index < Length()] it returns the item at [index], for any other
    index the run time aborts.  The resolver calls it only below its guard:
    an index outside [-length .. length-1] is answered with an error value,
    a negative one is moved up by the length, so the index [Index] gets is
    in range and no lookup through [ResolveVariable] ends in an
    index-out-of-range abort. *)
Theorem Index_guarded :
  (forall (l : list utils.Value) index,
      (0 <= index < utils.Length l ->
       exists item, utils.Index l index = Returned item
                    /\ nth_error l (Z.to_nat index) = Some item)
      /\ (~ (0 <= index < utils.Length l) ->
          utils.Index l index = Panicked (PanicIndexOutOfRange index (utils.Length l))))
  /\ (forall (decimal : types.DecimalLibrary) (values : list types.XValue) index,
         (0 <= index < types.xarray_Length values ->
          exists item, types.xarray_Index values index = Returned item
                       /\ nth_error values (Z.to_nat index) = Some item)
         /\ (~ (0 <= index < types.xarray_Length values) ->
             types.xarray_Index values index
             = Panicked (PanicIndexOutOfRange index (types.xarray_Length values))))
  /\ (forall (h : flows.Store) (l : flows.URNList) index,
         (0 <= index < flows.Length h l ->
          exists item, flows.Index h l index = Returned item
                       /\ nth_error (elements h l) (Z.to_nat index) = Some item)
         /\ (~ (0 <= index < flows.Length h l) ->
             flows.Index h l index
             = Panicked (PanicIndexOutOfRange index (flows.Length h l))))
  /\ (forall (indexable : list utils.Value) index,
         (- utils.Length indexable <= index < utils.Length indexable ->
          0 <= (if index <? 0 then index + utils.Length indexable else index)
            < utils.Length indexable
          /\ exists item,
              utils.Index indexable
                (if index <? 0 then index + utils.Length indexable else index)
              = Returned item
              /\ utils.resolveByIndex indexable index = utils.Continue item)
         /\ (~ (- utils.Length indexable <= index < utils.Length indexable) ->
             utils.resolveByIndex indexable index
             = utils.Leave
                 (Returned (utils.Errorf_range index (utils.Length indexable)))))
  /\ (forall variable key index length,
         utils.ResolveVariable variable key
         <> Some (Panicked (PanicIndexOutOfRange index length))).
Proof.
  repeat apply conj.
  - intros l index. split.
    + apply GoFacts.index_in_range.
    + apply GoFacts.index_out_of_range.
  - intros decimal values index. split.
    + apply GoFacts.index_in_range.
    + apply GoFacts.index_out_of_range.
  - intros h l index. split.
    + apply GoFacts.index_in_range.
    + apply GoFacts.index_out_of_range.
  - intros indexable index. split.
    + intros Hr.
      assert (Hn : 0 <= (if index <? 0 then index + utils.Length indexable else index)
                   < utils.Length indexable)
        by (destruct (Z.ltb_spec index 0); lia).
      split; [exact Hn|].
      destruct (GoFacts.index_in_range indexable _ Hn) as (item & Hi & _).
      exists item. split; [exact Hi|].
      destruct (utilsFacts.resolveByIndex_in_range indexable index Hr) as (item' & _ & Hc).
      rewrite Hc. unfold utils.resolveByIndex in Hc.
      destruct ((index >=? utils.Length indexable) || (index <? - utils.Length indexable));
        [discriminate|].
      unfold utils.Index in Hc. rewrite Hi in Hc. exact (eq_sym Hc).
    + apply utilsFacts.resolveByIndex_out_of_range.
  - intros variable key index length H.
    apply ResolveVariable_panic in H as [msg H]. discriminate.
Qed.

Lemma Index_guarded_witness :
  (exists item, utils.Index Spec.sampleItems 2 = Returned item
                /\ nth_error Spec.sampleItems 2 = Some item)
  /\ utils.Index Spec.sampleItems 3 = Panicked (PanicIndexOutOfRange 3 3)
  /\ utils.resolveByIndex Spec.sampleItems 3
     = utils.Leave (Returned (utils.VError "index 3 out of range for 3 items")).
Proof.
  split; [|split].
  - apply (proj1 (proj1 Index_guarded Spec.sampleItems 2)). cbn. lia.
  - apply (proj2 (proj1 Index_guarded Spec.sampleItems 3)). cbn. lia.
  - apply (proj2 (proj1 (proj2 (proj2 (proj2 Index_guarded))) Spec.sampleItems 3)).
    cbn. lia.
Defined.

End indexFacts.


(** ** More on the resolver: how paths are read *)

Module resolverFacts.
Import utils Spec.

Lemma walk_nil variable key : walk variable key EmptyString = Finished variable key.
Proof. reflexivity. Qed.

(** The number of passes does not matter once it covers the path. *)
Lemma resolveLoop_passes : forall p1 p2 variable key rest,
  (String.length rest <= p1)%nat -> (String.length rest <= p2)%nat ->
  resolveLoop p1 variable key rest = resolveLoop p2 variable key rest.
Proof.
  induction p1 as [|p1 IH]; intros p2 variable key rest H1 H2.
  - destruct rest; [destruct p2; reflexivity|simpl in H1; lia].
  - destruct rest as [|a rest]; [destruct p2; reflexivity|].
    destruct p2 as [|p2]; [simpl in H2; lia|].
    cbn [resolveLoop].
    pose proof (utilsFacts.popNextVariable_shorter (String a rest) ltac:(discriminate)) as Hs.
    destruct (popNextVariable (String a rest)) as [key' rest'].
    cbn [snd String.length] in Hs, H1, H2.
    destruct (resolveKey variable key'); [|reflexivity].
    apply IH; lia.
Qed.

Lemma resolveLoop_walk passes variable key rest :
  (String.length rest <= passes)%nat ->
  resolveLoop passes variable key rest = walk variable key rest.
Proof. intros H. unfold walk. now apply resolveLoop_passes. Qed.

Lemma walk_step variable key rest :
  rest <> EmptyString ->
  walk variable key rest
  = match resolveKey variable (fst (popNextVariable rest)) with
    | Leave result => Exited result
    | Continue variable' =>
        walk variable' (fst (popNextVariable rest)) (snd (popNextVariable rest))
    end.
Proof.
  intros Hne. destruct rest as [|a rest]; [now elim Hne|].
  unfold walk at 1. cbn [String.length resolveLoop].
  pose proof (utilsFacts.popNextVariable_shorter (String a rest) ltac:(discriminate)) as Hs.
  destruct (popNextVariable (String a rest)) as [key' rest'].
  cbn [fst snd String.length] in *.
  destruct (resolveKey variable key'); [|reflexivity].
  apply resolveLoop_walk. lia.
Qed.

(** The key a walk starts with is forgotten at the first pass. *)
Lemma walk_key variable key key' rest :
  rest <> EmptyString -> walk variable key rest = walk variable key' rest.
Proof. intros Hne. now rewrite !walk_step by exact Hne. Qed.

Lemma ResolveVariable_finish variable key :
  asError variable = None -> key <> EmptyString ->
  ResolveVariable variable key = finish (walk variable (stripDot key) (stripDot key)).
Proof. intros He Hne. now rewrite utilsFacts.ResolveVariable_walk. Qed.

Lemma ResolveVariable_error variable key :
  asError variable <> None -> ResolveVariable variable key = Some (Go.Returned variable).
Proof.
  intros He. unfold ResolveVariable. destruct (asError variable); [reflexivity|now elim He].
Qed.

Lemma resolveByName_continue variable key variable' :
  resolveByName variable key = Continue variable' ->
  asError variable = None /\ asError variable' = None.
Proof.
  unfold resolveByName. destruct variable; cbn [asResolvable asError]; try discriminate.
  destruct resolvable as [resolve|]; [|discriminate].
  destruct (asError (resolve key)) eqn:E; [discriminate|]. intros [= <-]. auto.
Qed.

Lemma resolveKey_continue variable key variable' :
  resolveKey variable key = Continue variable' -> asError variable = None.
Proof.
  unfold resolveKey. destruct (IsNil variable); [discriminate|].
  destruct (Go.Atoi key); [destruct (asIndexable variable) eqn:E|].
  - intros _. eapply utilsFacts.indexable_not_error; eauto.
  - intros H. now apply resolveByName_continue in H.
  - intros H. now apply resolveByName_continue in H.
Qed.

Lemma stripDot_opening bracket body tail :
  plain body = true -> bracket = true \/ body <> EmptyString ->
  stripDot (opening bracket ++ body ++ tail) = opening bracket ++ body ++ tail.
Proof.
  intros Hp Hb. destruct bracket; [reflexivity|].
  destruct body as [|a body]; [destruct Hb; [discriminate|congruence]|].
  cbn [opening append stripDot]. cbn [plain] in Hp. apply andb_true_iff in Hp as [Ha _].
  apply negb_true_iff, utilsFacts.not_separator in Ha as (_ & _ & ->). reflexivity.
Qed.

Lemma opening_not_empty bracket body tail :
  bracket = true \/ body <> EmptyString -> opening bracket ++ body ++ tail <> EmptyString.
Proof.
  intros [-> | Hb]; [discriminate|]. destruct bracket; [discriminate|].
  destruct body; [congruence|discriminate].
Qed.

(** The first pass on a path that starts with a key and a separator. *)
Lemma walk_first variable key0 bracket body c post :
  plain body = true -> isSeparator c = true ->
  bracket = true \/ body <> EmptyString ->
  walk variable key0 (opening bracket ++ body ++ String c post)
  = match resolveKey variable (Go.Trim body Go.dquote) with
    | Leave result => Exited result
    | Continue variable' =>
        walk variable' (Go.Trim body Go.dquote)
             (if Ascii.eqb c "[" then String c post else post)
    end.
Proof.
  intros Hp Hc Hb.
  rewrite walk_step by now apply opening_not_empty.
  now rewrite utilsFacts.popNextVariable_stop by auto.
Qed.

(** The pass on a path that is one last key. *)
Lemma walk_last variable key0 bracket body :
  plain body = true -> opening bracket ++ body <> EmptyString ->
  walk variable key0 (opening bracket ++ body)
  = match resolveKey variable (opening bracket ++ body) with
    | Leave result => Exited result
    | Continue variable' => Finished variable' (opening bracket ++ body)
    end.
Proof.
  intros Hp Hne. rewrite walk_step by exact Hne.
  rewrite utilsFacts.popNextVariable_plain by exact Hp. cbn [fst snd].
  destruct (resolveKey variable (opening bracket ++ body)); reflexivity.
Qed.

Lemma mapIndex_assign_same {V : Type} (m : Go.Map V) k v :
  Go.mapIndex (Go.mapAssign m k v) k = Some v.
Proof.
  induction m as [|[k' v'] m IH]; cbn [Go.mapAssign Go.mapIndex].
  - now rewrite String.eqb_refl.
  - destruct (String.eqb_spec k k') as [->|Hne]; cbn [Go.mapIndex].
    + now rewrite String.eqb_refl.
    + apply String.eqb_neq in Hne. now rewrite Hne.
Qed.

Lemma mapIndex_assign_other {V : Type} (m : Go.Map V) k v k' :
  k' <> k -> Go.mapIndex (Go.mapAssign m k v) k' = Go.mapIndex m k'.
Proof.
  intros Hne. induction m as [|[k0 v0] m IH]; cbn [Go.mapAssign Go.mapIndex].
  - apply String.eqb_neq in Hne. now rewrite Hne.
  - destruct (String.eqb_spec k k0) as [->|Hk]; cbn [Go.mapIndex].
    + apply String.eqb_neq in Hne. now rewrite Hne.
    + destruct (String.eqb k' k0); auto.
Qed.

Lemma take_drop : forall n s, s = take n s ++ Go.drop n s.
Proof.
  induction n as [|n IH]; intros [|c s]; cbn [take Go.drop append]; auto.
  f_equal. apply IH.
Qed.

Lemma app_empty s : s ++ EmptyString = s.
Proof. induction s; cbn; congruence. Qed.

Example ResolveVariable_nested :
  ResolveVariable sampleContext "urns[1]" = Some (Go.Returned (VString "b")).
Proof. reflexivity. Qed.
Example ResolveVariable_numeric_name :
  ResolveVariable sampleContext "0" = Some (Go.Returned (VInt 7)).
Proof. reflexivity. Qed.
Example ResolveVariable_trailing_dot :
  ResolveVariable sampleContext "name." = Some (Go.Returned (VString "Bob")).
Proof. reflexivity. Qed.
Example ResolveVariable_empty_brackets :
  ResolveVariable sampleContext "name[]"
  = Some (Go.Returned (VError "can't resolve key '' of type string")).
Proof. reflexivity. Qed.

(** *** Further properties of the resolver *)

(** X1.  [popNextVariable] takes at least one character off a non-empty
    path, and what it returns as the rest is the end of the path it was
    given. *)
Theorem popNextVariable_suffix input :
  input <> EmptyString ->
  exists consumed,
    consumed <> EmptyString /\ input = consumed ++ snd (popNextVariable input).
Proof.
  intros Hne. unfold popNextVariable.
  destruct (scanKey 0 input) as [[k c]|] eqn:E; cbn [snd].
  - apply utilsFacts.scanKey_bounds in E as [Hk Hc]; [|lia]. unfold Go.len in Hk.
    set (n := Z.to_nat (if Ascii.eqb c "[" then k else k + 1)).
    assert (Hn : (1 <= n)%nat).
    { subst n. destruct (Ascii.eqb c "["); [specialize (Hc eq_refl)|]; lia. }
    exists (take n input). split.
    + destruct input as [|a input]; [now elim Hne|].
      destruct n; [lia|discriminate].
    + apply take_drop.
  - exists input. split; [exact Hne|]. now rewrite app_empty.
Qed.

Lemma popNextVariable_suffix_witness :
  exists consumed,
    consumed <> EmptyString /\ "foo[0].bar" = consumed ++ snd (popNextVariable "foo[0].bar").
Proof. apply popNextVariable_suffix. discriminate. Defined.

(** X2.  Resolving a path that starts with a key and a separator is
    resolving the key and then the rest of the path on what the key gave,
    as long as that is not an error and the rest is not empty and does not
    start with a dot. *)
Theorem ResolveVariable_first_key variable bracket body c post variable' :
  plain body = true -> isSeparator c = true ->
  bracket = true \/ body <> EmptyString ->
  resolveKey variable (Go.Trim body Go.dquote) = Continue variable' ->
  asError variable' = None ->
  (if Ascii.eqb c "[" then String c post else post) <> EmptyString ->
  stripDot (if Ascii.eqb c "[" then String c post else post)
  = (if Ascii.eqb c "[" then String c post else post) ->
  ResolveVariable variable (opening bracket ++ body ++ String c post)
  = ResolveVariable variable' (if Ascii.eqb c "[" then String c post else post).
Proof.
  intros Hp Hc Hb Hk He Hne Hdot.
  rewrite ResolveVariable_finish;
    [|eapply resolveKey_continue; eauto|now apply opening_not_empty].
  rewrite stripDot_opening by auto.
  rewrite walk_first, Hk by auto.
  rewrite ResolveVariable_finish, Hdot by auto.
  f_equal. now apply walk_key.
Qed.

Lemma ResolveVariable_first_key_witness :
  ResolveVariable sampleContext "urns.-1" = ResolveVariable sampleList "-1"
  /\ ResolveVariable sampleContext "urns[2]" = ResolveVariable sampleList "[2]".
Proof.
  split.
  - apply (ResolveVariable_first_key sampleContext false "urns" "." "-1" sampleList);
      try reflexivity; try (right; discriminate); cbn; discriminate.
  - apply (ResolveVariable_first_key sampleContext false "urns" "[" "2]" sampleList);
      try reflexivity; try (right; discriminate); cbn; discriminate.
Defined.

(** X3.  After a key, [[k]] and [.k] are the same step, for a key [k]
    that is not empty and has no double quote at either end. *)
Theorem ResolveVariable_bracket_is_dot variable k1 k2 :
  plain k1 = true -> k1 <> EmptyString ->
  plain k2 = true -> k2 <> EmptyString ->
  Go.Trim k2 Go.dquote = k2 ->
  ResolveVariable variable (k1 ++ "[" ++ k2 ++ "]")
  = ResolveVariable variable (k1 ++ "." ++ k2).
Proof.
  intros Hp1 Hn1 Hp2 Hn2 Ht.
  destruct (asError variable) eqn:He.
  { rewrite !ResolveVariable_error by congruence. reflexivity. }
  pose proof (stripDot_opening false k1 ("[" ++ k2 ++ "]") Hp1 (or_intror Hn1)) as Hs1.
  pose proof (stripDot_opening false k1 ("." ++ k2) Hp1 (or_intror Hn1)) as Hs2.
  pose proof (opening_not_empty false k1 ("[" ++ k2 ++ "]") (or_intror Hn1)) as Hne1.
  pose proof (opening_not_empty false k1 ("." ++ k2) (or_intror Hn1)) as Hne2.
  pose proof (walk_first variable (k1 ++ "[" ++ k2 ++ "]") false k1 "[" (k2 ++ "]")
                Hp1 eq_refl (or_intror Hn1)) as W1.
  pose proof (walk_first variable (k1 ++ "." ++ k2) false k1 "." k2
                Hp1 eq_refl (or_intror Hn1)) as W2.
  cbn [opening append Ascii.eqb Bool.eqb] in *.
  rewrite !ResolveVariable_finish by auto. rewrite Hs1, Hs2, W1, W2.
  destruct (resolveKey variable (Go.Trim k1 Go.dquote)) as [w|r]; [|reflexivity].
  pose proof (walk_first w (Go.Trim k1 Go.dquote) true k2 "]" EmptyString
                Hp2 eq_refl (or_introl eq_refl)) as W3.
  pose proof (walk_last w (Go.Trim k1 Go.dquote) false k2 Hp2) as W4.
  cbn [opening append Ascii.eqb Bool.eqb] in W3, W4.
  rewrite W3, Ht, W4 by exact Hn2.
  destruct (resolveKey w k2); reflexivity.
Qed.

Lemma ResolveVariable_bracket_is_dot_witness :
  ResolveVariable sampleContext "urns[0]" = ResolveVariable sampleContext "urns.0".
Proof.
  apply (ResolveVariable_bracket_is_dot sampleContext "urns" "0");
    try reflexivity; discriminate.
Defined.

(** X4.  A dot right after a closing bracket is not skipped: [[k].rest]
    resolves [k], then the empty key on what [k] gave, and only then
    [rest]. *)
Theorem ResolveVariable_dot_after_bracket variable body post variable' :
  plain body = true ->
  resolveKey variable (Go.Trim body Go.dquote) = Continue variable' ->
  post <> EmptyString -> stripDot post = post ->
  popNextVariable ("[" ++ body ++ "]." ++ post) = (Go.Trim body Go.dquote, "." ++ post)
  /\ popNextVariable ("." ++ post) = (EmptyString, post)
  /\ ResolveVariable variable ("[" ++ body ++ "]." ++ post)
     = match resolveKey variable' EmptyString with
       | Leave result => Some result
       | Continue variable'' => ResolveVariable variable'' post
       end.
Proof.
  intros Hp Hk Hne Hdot.
  pose proof (utilsFacts.popNextVariable_stop true body "]" ("." ++ post) Hp eq_refl
                ltac:(discriminate)) as P1.
  pose proof (utilsFacts.popNextVariable_stop false EmptyString "." post eq_refl eq_refl
                ltac:(discriminate)) as P2.
  cbn [opening append Ascii.eqb Bool.eqb] in P1, P2.
  change (Go.Trim EmptyString Go.dquote) with EmptyString in P2.
  split; [exact P1|]. split; [exact P2|].
  rewrite ResolveVariable_finish;
    [|eapply resolveKey_continue; eauto|discriminate].
  cbn [append stripDot Ascii.eqb Bool.eqb].
  pose proof (walk_first variable (String "[" (body ++ "]." ++ post)) true body "]"
                ("." ++ post) Hp eq_refl (or_introl eq_refl)) as W1.
  cbn [opening append Ascii.eqb Bool.eqb] in W1. rewrite W1, Hk.
  rewrite walk_step by discriminate. rewrite P2. cbn [fst snd].
  destruct (resolveKey variable' EmptyString) as [w|r] eqn:E; [|reflexivity].
  assert (Hw : asError w = None).
  { unfold resolveKey in E. destruct (IsNil variable'); [discriminate|].
    cbn [Go.Atoi] in E. now apply resolveByName_continue in E. }
  rewrite ResolveVariable_finish, Hdot by auto.
  f_equal. now apply walk_key.
Qed.

Lemma ResolveVariable_dot_after_bracket_witness :
  ResolveVariable sampleContacts "[0].name" = Some (Go.Returned (VError "no key '' in map"))
  /\ ResolveVariable sampleContacts "0.name" = Some (Go.Returned (VString "Bob")).
Proof.
  split; [|reflexivity].
  exact (proj2 (proj2 (ResolveVariable_dot_after_bracket sampleContacts "0" "name"
                         (NewMapResolver [("name", VString "Bob")])
                         eq_refl eq_refl ltac:(discriminate) eq_refl))).
Defined.

(** X5.  One leading dot is dropped: [.key] resolves as [key].  The path
    that is only a dot is not the empty path: the empty path hands the
    variable back as it is, the dot puts it through the last check. *)
Theorem ResolveVariable_leading_dot variable key :
  (key <> EmptyString -> stripDot key = key ->
   ResolveVariable variable ("." ++ key) = ResolveVariable variable key)
  /\ ResolveVariable variable EmptyString = Some (Go.Returned variable)
  /\ (asError variable = None ->
      ResolveVariable variable "." = Some (checkResolved variable EmptyString)).
Proof.
  repeat split.
  - intros Hne Hdot. unfold ResolveVariable.
    destruct (asError variable); [reflexivity|].
    destruct key as [|a key]; [now elim Hne|].
    cbn [append]. change (stripDot (String "." (String a key))) with (String a key).
    rewrite Hdot.
    rewrite (resolveLoop_passes (String.length (String a key))
               (String.length (String "." (String a key)))); auto.
    cbn [String.length]. lia.
  - unfold ResolveVariable. destruct (asError variable); reflexivity.
  - intros He. unfold ResolveVariable. rewrite He. reflexivity.
Qed.

Lemma ResolveVariable_leading_dot_witness :
  ResolveVariable sampleContext ".name" = ResolveVariable sampleContext "name"
  /\ ResolveVariable sampleUnknown EmptyString = Some (Go.Returned sampleUnknown)
  /\ ResolveVariable sampleUnknown "."
     = Some (Go.Panicked (Go.PanicMessage "key '' of resolved to usupported type *flows.unknown")).
Proof.
  split; [|split].
  - apply (proj1 (ResolveVariable_leading_dot sampleContext "name")); [discriminate|reflexivity].
  - apply (proj1 (proj2 (ResolveVariable_leading_dot sampleUnknown EmptyString))).
  - apply (proj2 (proj2 (ResolveVariable_leading_dot sampleUnknown EmptyString))). reflexivity.
Defined.

(** X6.  Through a map resolver a key resolves to what the map holds for
    it, also when the key is a number: a missing key gives the error "no
    key ... in map", an error in the map comes back as it is, any other
    value goes through the last check; and what was just assigned to a key
    is what the key resolves to. *)
Theorem NewMapResolver_lookup values key :
  plain key = true -> key <> EmptyString ->
  (Go.mapIndex values key = None ->
   ResolveVariable (NewMapResolver values) key
   = Some (Go.Returned (VError ("no key '" ++ key ++ "' in map"))))
  /\ (forall val,
         Go.mapIndex values key = Some val ->
         ResolveVariable (NewMapResolver values) key
         = Some (match asError val with
                 | Some _ => Go.Returned val
                 | None => checkResolved val key
                 end))
  /\ (forall val,
         asError val = None -> snd (ToXAtom val) = None ->
         ResolveVariable (NewMapResolver (Go.mapAssign values key val)) key
         = Some (Go.Returned val)).
Proof.
  intros Hp Hne.
  assert (Hone : forall m,
             ResolveVariable (NewMapResolver m) key
             = Some match asError (mapResolver_Resolve m key) with
                    | Some _ => Go.Returned (mapResolver_Resolve m key)
                    | None => checkResolved (mapResolver_Resolve m key) key
                    end).
  { intros m. rewrite utilsFacts.ResolveVariable_one_key by auto.
    assert (Hk : resolveKey (NewMapResolver m) key
                 = match asError (mapResolver_Resolve m key) with
                   | Some _ => Leave (Go.Returned (mapResolver_Resolve m key))
                   | None => Continue (mapResolver_Resolve m key)
                   end).
    { unfold resolveKey, NewMapResolver. cbn [IsNil asIndexable].
      destruct (Go.Atoi key); reflexivity. }
    rewrite Hk. destruct (asError (mapResolver_Resolve m key)); reflexivity. }
  repeat split.
  - intros Hm. rewrite Hone. unfold mapResolver_Resolve. rewrite Hm. reflexivity.
  - intros val Hm. rewrite Hone. unfold mapResolver_Resolve. rewrite Hm. reflexivity.
  - intros val He Ha. rewrite Hone. unfold mapResolver_Resolve.
    rewrite mapIndex_assign_same, He. unfold checkResolved.
    destruct (ToXAtom val) as [[a t] [e|]]; [discriminate|reflexivity].
Qed.

Lemma NewMapResolver_lookup_witness :
  ResolveVariable (NewMapResolver [("name", VString "Bob")]) "age"
  = Some (Go.Returned (VError "no key 'age' in map"))
  /\ ResolveVariable (NewMapResolver (Go.mapAssign [("name", VString "Bob")] "7" (VInt 42))) "7"
     = Some (Go.Returned (VInt 42)).
Proof.
  split.
  - apply (proj1 (NewMapResolver_lookup [("name", VString "Bob")] "age" eq_refl
                    ltac:(discriminate))).
    reflexivity.
  - apply (proj2 (proj2 (NewMapResolver_lookup [("name", VString "Bob")] "7" eq_refl
                           ltac:(discriminate)))); reflexivity.
Defined.

(** X7.  [ToXAtom] changes a value only when it is an [int], which it
    turns into a decimal; what it hands back for a value it accepts is a
    value it accepts again, unchanged and with the same type. *)
Theorem ToXAtom_normal val :
  (fst (fst (ToXAtom val)) = val \/ exists i, val = VInt i)
  /\ (snd (ToXAtom val) = None ->
      ToXAtom (fst (fst (ToXAtom val)))
      = (fst (fst (ToXAtom val)), snd (fst (ToXAtom val)), None)).
Proof.
  destruct val as [| | | | i | | |typeName nilPointer [|] ? ? ?]; cbn; split; eauto;
    discriminate.
Qed.

Lemma ToXAtom_normal_witness :
  ToXAtom (fst (fst (ToXAtom (VInt 5)))) = (VDecimal 5 0, XTypeDecimal, None).
Proof. apply (proj2 (ToXAtom_normal (VInt 5))). reflexivity. Defined.

End resolverFacts.

(** ** The small helpers *)

Module miscFacts.
Import misc Spec.
Local Open Scope list_scope.

Example Max_example : Max 3 (-4) = 3. Proof. reflexivity. Qed.
Example SortedKeys_example :
  SortedKeys (Set_ ["b"; "a"; "b"; "c"; "a"]) = ["a"; "b"; "c"].
Proof. reflexivity. Qed.

Lemma mapKeys_assign {V : Type} (m : Go.Map V) k v k' :
  In k' (Go.mapKeys (Go.mapAssign m k v)) <-> k' = k \/ In k' (Go.mapKeys m).
Proof.
  unfold Go.mapKeys.
  induction m as [|[k0 v0] m IH]; cbn [Go.mapAssign map fst In].
  - intuition congruence.
  - destruct (String.eqb_spec k k0) as [->|Hne]; cbn [map fst In].
    + intuition congruence.
    + rewrite IH. intuition congruence.
Qed.

Lemma mapKeys_assign_NoDup {V : Type} (m : Go.Map V) k v :
  NoDup (Go.mapKeys m) -> NoDup (Go.mapKeys (Go.mapAssign m k v)).
Proof.
  induction m as [|[k0 v0] m IH]; cbn [Go.mapAssign]; intros Hnd.
  - repeat constructor. intros [].
  - destruct (String.eqb_spec k k0) as [->|Hne].
    + exact Hnd.
    + unfold Go.mapKeys in *. cbn [map fst] in *.
      inversion Hnd as [|? ? Hk Hnd']; subst. constructor; [|auto].
      intros Hin. apply (mapKeys_assign m k v k0) in Hin as [Heq|Hin]; [congruence|auto].
Qed.

Lemma Set_fold s : forall m,
  NoDup (Go.mapKeys m) ->
  (forall k, Go.mapIndex m k = Some true \/ Go.mapIndex m k = None) ->
  NoDup (Go.mapKeys (fold_left (fun m v => Go.mapAssign m v true) s m))
  /\ (forall k, In k (Go.mapKeys (fold_left (fun m v => Go.mapAssign m v true) s m))
                <-> In k s \/ In k (Go.mapKeys m))
  /\ (forall k, Go.mapIndex (fold_left (fun m v => Go.mapAssign m v true) s m) k = Some true
                \/ Go.mapIndex (fold_left (fun m v => Go.mapAssign m v true) s m) k = None).
Proof.
  induction s as [|a s IH]; intros m Hnd Hv; cbn [fold_left].
  - split; [exact Hnd|]. split; [|exact Hv]. intros k. cbn [In]. tauto.
  - destruct (IH (Go.mapAssign m a true)) as (H1 & H2 & H3).
    + now apply mapKeys_assign_NoDup.
    + intros k. destruct (string_dec k a) as [->|Hne].
      * left. apply resolverFacts.mapIndex_assign_same.
      * rewrite resolverFacts.mapIndex_assign_other by exact Hne. apply Hv.
    + split; [exact H1|]. split; [|exact H3].
      intros k. rewrite H2, mapKeys_assign. cbn [In]. intuition congruence.
Qed.

Lemma mapIndex_keys {V : Type} (m : Go.Map V) k :
  Go.mapIndex m k = None <-> ~ In k (Go.mapKeys m).
Proof.
  unfold Go.mapKeys. induction m as [|[k0 v0] m IH]; cbn [Go.mapIndex map fst In].
  - intuition.
  - destruct (String.eqb_spec k k0) as [->|Hne].
    + split; [discriminate|]. intros H. elim H. now left.
    + rewrite IH. intuition congruence.
Qed.

(** X8.  [SortedKeys] of the set made from a slice lists the elements of
    the slice in ascending order, each once; the set holds [true] for the
    elements of the slice and nothing else; and [SortedKeys] gives the same
    list in whatever order the map hands out its keys. *)
Theorem SortedKeys_of_Set s :
  StronglySorted Spec.le (SortedKeys (Set_ s))
  /\ NoDup (SortedKeys (Set_ s))
  /\ (forall k, In k (SortedKeys (Set_ s)) <-> In k s)
  /\ (forall k, In k s -> Go.mapIndex (Set_ s) k = Some true)
  /\ (forall k, ~ In k s -> Go.mapIndex (Set_ s) k = None)
  /\ (forall m m' : Go.Map bool, Permutation m m' -> SortedKeys m = SortedKeys m').
Proof.
  destruct (Set_fold s []) as (Hnd & Hin & Hval).
  { constructor. }
  { intros k. now right. }
  fold (Set_ s) in *.
  assert (Hp : Permutation (SortedKeys (Set_ s)) (Go.mapKeys (Set_ s)))
    by apply typesFacts.sortStrings_perm.
  repeat split.
  - apply typesFacts.sortStrings_sorted.
  - eapply Permutation_NoDup; [symmetry; exact Hp|exact Hnd].
  - intros H. eapply Permutation_in in H; [|exact Hp]. apply Hin in H as [H|[]]. exact H.
  - intros H. eapply Permutation_in; [symmetry; exact Hp|]. apply Hin. now left.
  - intros k Hk. destruct (Hval k) as [H|H]; [exact H|].
    apply mapIndex_keys in H. elim H. apply Hin. now left.
  - intros k Hk. apply mapIndex_keys. intros H. apply Hin in H as [H|[]]. auto.
  - intros m m' Hm. unfold SortedKeys. apply typesFacts.sortStrings_unique.
    unfold Go.mapKeys. now apply Permutation_map.
Qed.

Lemma SortedKeys_of_Set_witness :
  Go.mapIndex (Set_ ["b"; "a"; "b"]) "a" = Some true
  /\ Go.mapIndex (Set_ ["b"; "a"; "b"]) "c" = None
  /\ SortedKeys [("b", true); ("a", true)] = SortedKeys [("a", true); ("b", true)].
Proof.
  split; [|split].
  - apply (proj1 (proj2 (proj2 (proj2 (SortedKeys_of_Set ["b"; "a"; "b"]))))).
    cbn. auto.
  - apply (proj1 (proj2 (proj2 (proj2 (proj2 (SortedKeys_of_Set ["b"; "a"; "b"])))))).
    cbn. intuition discriminate.
  - apply (proj2 (proj2 (proj2 (proj2 (proj2 (SortedKeys_of_Set []))))) ).
    apply perm_swap.
Defined.

(** X9.  [Max] is the larger and [Min] the smaller of the two: each is one
    of its arguments, [Max] is at least both and [Min] at most both, and
    together they are the two arguments. *)
Theorem Max_Min_bounds x y :
  (Max x y = x \/ Max x y = y)
  /\ x <= Max x y /\ y <= Max x y
  /\ (Min x y = x \/ Min x y = y)
  /\ Min x y <= x /\ Min x y <= y
  /\ Min x y + Max x y = x + y
  /\ Max x y = Max y x /\ Min x y = Min y x.
Proof.
  unfold Max, Min.
  destruct (Z.gtb_spec x y); destruct (Z.ltb_spec x y);
    destruct (Z.gtb_spec y x); destruct (Z.ltb_spec y x); repeat split; auto; lia.
Qed.

End miscFacts.

(** ** More on dicts, arrays and integers *)

Module dictFacts.
Import types Spec.
Local Open Scope list_scope.

Lemma index_app_left {A : Type} (l l' : list A) i :
  0 <= i < Go.lenOf l -> Go.index (l ++ l') i = Go.index l i.
Proof.
  intros H. unfold Go.index. destruct (Z.ltb_spec i 0); [lia|].
  rewrite nth_error_app1 by (unfold Go.lenOf in H; lia).
  destruct (nth_error l (Z.to_nat i)) eqn:E; [reflexivity|].
  apply nth_error_None in E. unfold Go.lenOf in H. lia.
Qed.

Lemma index_app_last {A : Type} (l : list A) x :
  Go.index (l ++ [x]) (Go.lenOf l) = Go.Returned x.
Proof.
  unfold Go.index, Go.lenOf. destruct (Z.ltb_spec (Z.of_nat (List.length l)) 0); [lia|].
  rewrite Nat2Z.id, nth_error_app2, Nat.sub_diag by lia. reflexivity.
Qed.

Section Maps.
Context {decimal : DecimalLibrary}.

Lemma mapGet_assign_same (d : list (string * XValue)) k v : mapGet (Go.mapAssign d k v) k = v.
Proof.
  induction d as [|[k' v'] d IH]; cbn [Go.mapAssign mapGet].
  - now rewrite String.eqb_refl.
  - destruct (String.eqb_spec k k') as [->|Hne]; cbn [mapGet].
    + now rewrite String.eqb_refl.
    + apply String.eqb_neq in Hne. now rewrite Hne.
Qed.

Lemma mapGet_assign_other (d : list (string * XValue)) k v k' :
  k' <> k -> mapGet (Go.mapAssign d k v) k' = mapGet d k'.
Proof.
  intros Hne. induction d as [|[k0 v0] d IH]; cbn [Go.mapAssign mapGet].
  - apply String.eqb_neq in Hne. now rewrite Hne.
  - destruct (String.eqb_spec k k0) as [->|Hk]; cbn [mapGet].
    + apply String.eqb_neq in Hne. now rewrite Hne.
    + destruct (String.eqb k' k0); auto.
Qed.

Lemma mapFind_Get (d : list (string * XValue)) k :
  mapGet d k = match mapFind d k with Some v => v | None => XNil end.
Proof.
  induction d as [|[k' v'] d IH]; cbn [mapGet mapFind]; [reflexivity|].
  destruct (String.eqb k k'); auto.
Qed.

Lemma mapFind_absent (d : list (string * XValue)) k :
  mapFind d k = None <-> ~ In k (Keys d).
Proof.
  unfold Keys. induction d as [|[k' v'] d IH]; cbn [mapFind map fst In].
  - intuition.
  - destruct (String.eqb_spec k k') as [->|Hne].
    + split; [discriminate|]. intros H. elim H. now left.
    + rewrite IH. intuition congruence.
Qed.

Lemma Keys_assign_present (d : list (string * XValue)) k v :
  In k (Keys d) -> Keys (Go.mapAssign d k v) = Keys d.
Proof.
  unfold Keys. induction d as [|[k' v'] d IH]; cbn [Go.mapAssign map fst In]; [contradiction|].
  intros Hin. destruct (String.eqb_spec k k') as [->|Hne]; cbn [map fst]; [reflexivity|].
  f_equal. apply IH. destruct Hin; [congruence|assumption].
Qed.

Lemma Keys_assign_absent (d : list (string * XValue)) k v :
  ~ In k (Keys d) -> Keys (Go.mapAssign d k v) = Keys d ++ [k].
Proof.
  unfold Keys. induction d as [|[k' v'] d IH]; cbn [Go.mapAssign map fst In app]; [reflexivity|].
  intros Hn. destruct (String.eqb_spec k k') as [->|Hne]; cbn [map fst].
  - elim Hn. now left.
  - f_equal. apply IH. intros H. apply Hn. now right.
Qed.

Lemma assign_assign_same (d : list (string * XValue)) k v1 v2 :
  Go.mapAssign (Go.mapAssign d k v1) k v2 = Go.mapAssign d k v2.
Proof.
  induction d as [|[k' v'] d IH]; cbn [Go.mapAssign].
  - now rewrite String.eqb_refl.
  - destruct (String.eqb_spec k k') as [->|Hne]; cbn [Go.mapAssign].
    + now rewrite String.eqb_refl.
    + apply String.eqb_neq in Hne. rewrite Hne. now rewrite IH.
Qed.

Lemma Keys_assign (d : list (string * XValue)) k v :
  Keys (Go.mapAssign d k v) = if in_dec string_dec k (Keys d) then Keys d else Keys d ++ [k].
Proof.
  destruct (in_dec string_dec k (Keys d)); auto using Keys_assign_present, Keys_assign_absent.
Qed.

Lemma Keys_assign_swap (d : list (string * XValue)) k1 k2 v1 v2 :
  k1 <> k2 ->
  Permutation (Keys (Go.mapAssign (Go.mapAssign d k1 v1) k2 v2)) (Keys (Go.mapAssign (Go.mapAssign d k2 v2) k1 v1)).
Proof.
  intros Hne. rewrite !Keys_assign.
  repeat match goal with
         | |- context [in_dec string_dec ?k ?l] => destruct (in_dec string_dec k l)
         end;
    try reflexivity;
    try (rewrite <- !app_assoc; apply Permutation_app_head; apply perm_swap);
    exfalso;
    repeat match goal with
           | H : In _ (_ ++ _) |- _ => apply in_app_or in H
           | H : ~ In _ (_ ++ _) |- _ => rewrite in_app_iff in H
           end;
    cbn [In] in *; intuition congruence.
Qed.

End Maps.

Section Facts.
Context {decimal : DecimalLibrary}.
Variable Describe : XValue -> string.
Variable ToXText : XValue -> string * option XError.
Variable XError_ToXText : XError -> string.
Variable NewXResolveError : list (string * XValue) -> string -> XError.
Variable decimal_New : Z -> Z -> Decimal.
Variable growCap : nat -> nat.

(** The text of a dict is fixed by its keys, up to their order, and by what
    each key gives. *)
Lemma xdict_ToXText_ext (d1 d2 : list (string * XValue)) :
  Permutation (Keys d1) (Keys d2) ->
  (forall k, mapGet d1 k = mapGet d2 k) ->
  xdict_ToXText ToXText XError_ToXText d1 = xdict_ToXText ToXText XError_ToXText d2.
Proof.
  intros Hp Hg. unfold xdict_ToXText.
  rewrite (typesFacts.sortStrings_unique _ _ Hp).
  do 2 f_equal. f_equal. apply map_ext. intros k. unfold pairText. now rewrite Hg.
Qed.

(** *** Further properties of dicts, arrays and integers *)


(** X11.  [Resolve] gives a resolve error for a key the dict does not
    have, where [Get] gives nil; for a key the dict has both give its value;
    on a dict built on a made map a key resolves to what was put for it, nil
    included; and on a dict built on the nil map, where nothing can be put,
    every key gives the resolve error. *)
Theorem xdict_Resolve_cases (m : list (string * XValue)) k :
  (~ In k (Keys m) ->
   xdict_Resolve NewXResolveError m k = XErrorValue (NewXResolveError m k)
   /\ xdict_Get m k = XNil)
  /\ (In k (Keys m) -> xdict_Resolve NewXResolveError m k = xdict_Get m k)
  /\ (forall v,
         exists m',
           Put (NewXDict (Some m)) k v = Go.Returned (Some m')
           /\ xdict_Resolve NewXResolveError m' k = v)
  /\ xdict_Resolve NewXResolveError (Go.mapEntries (NewXDict None)) k
     = XErrorValue (NewXResolveError (Go.mapEntries (NewXDict None)) k)
  /\ (forall v,
         Put (NewXDict None) k v
         = Go.Panicked (Go.PanicMessage "assignment to entry in nil map")).
Proof.
  assert (Hr : forall d' : list (string * XValue),
             In k (Keys d') -> xdict_Resolve NewXResolveError d' k = xdict_Get d' k).
  { intros d' Hin. unfold xdict_Resolve, xdict_Get. rewrite mapFind_Get.
    destruct (mapFind d' k) eqn:E; [reflexivity|].
    apply mapFind_absent in E. contradiction. }
  split; [|split; [|split; [|split]]].
  - intros Hout. apply mapFind_absent in Hout. split.
    + unfold xdict_Resolve. now rewrite Hout.
    + unfold xdict_Get. now rewrite mapFind_Get, Hout.
  - apply Hr.
  - intros v. exists (Go.mapAssign m k v). split; [reflexivity|]. rewrite Hr.
    + apply mapGet_assign_same.
    + destruct (in_dec string_dec k (Keys m)) as [Hin|Hout].
      * now rewrite Keys_assign_present.
      * rewrite Keys_assign_absent by assumption. apply in_or_app. right. now left.
  - reflexivity.
  - reflexivity.
Qed.

(** X12.  Whatever map a dict is built on, putting two different keys in
    either order ends the same way, and so does putting a key twice and
    putting its last value once: on a made map both return and the texts of
    the dict are the same, on the nil map both abort at the first [Put].
    The empty dict and the dict built on the nil map have the text [{}]. *)
Theorem xdict_ToXText_Put (d : option (list (string * XValue))) k1 k2 v1 v2 :
  (k1 <> k2 ->
   Go.mapOutcome (fun d' => xdict_ToXText ToXText XError_ToXText (Go.mapEntries d'))
     (Go.andThen (Put d k1 v1) (fun d' => Put d' k2 v2))
   = Go.mapOutcome (fun d' => xdict_ToXText ToXText XError_ToXText (Go.mapEntries d'))
       (Go.andThen (Put d k2 v2) (fun d' => Put d' k1 v1)))
  /\ Go.mapOutcome (fun d' => xdict_ToXText ToXText XError_ToXText (Go.mapEntries d'))
       (Go.andThen (Put d k1 v1) (fun d' => Put d' k1 v2))
     = Go.mapOutcome (fun d' => xdict_ToXText ToXText XError_ToXText (Go.mapEntries d'))
         (Put d k1 v2)
  /\ (d <> None ->
      exists d', Go.andThen (Put d k1 v1) (fun d' => Put d' k2 v2) = Go.Returned d'
                 /\ d' <> None)
  /\ (d = None ->
      Go.andThen (Put d k1 v1) (fun d' => Put d' k2 v2)
      = Go.Panicked (Go.PanicMessage "assignment to entry in nil map"))
  /\ xdict_ToXText ToXText XError_ToXText (Go.mapEntries NewEmptyXDict) = "{}"%string
  /\ xdict_ToXText ToXText XError_ToXText (Go.mapEntries (NewXDict None)) = "{}"%string.
Proof.
  split; [|split; [|split; [|split; [|split]]]].
  - intros Hne. destruct d as [m|]; [|reflexivity].
    cbn [Put Go.andThen Go.mapOutcome Go.mapEntries]. f_equal.
    apply xdict_ToXText_ext; [now apply Keys_assign_swap|].
    intros k.
    destruct (string_dec k k2) as [->|H2]; [|destruct (string_dec k k1) as [->|H1]].
    + rewrite mapGet_assign_same, mapGet_assign_other, mapGet_assign_same; congruence.
    + rewrite mapGet_assign_other, !mapGet_assign_same; congruence.
    + now rewrite !mapGet_assign_other.
  - destruct d as [m|]; [|reflexivity].
    cbn [Put Go.andThen Go.mapOutcome Go.mapEntries]. now rewrite assign_assign_same.
  - intros Hd. destruct d as [m|]; [|now elim Hd].
    cbn [Put Go.andThen]. eexists. split; [reflexivity|discriminate].
  - intros ->. reflexivity.
  - reflexivity.
  - reflexivity.
Qed.

(** X13.  After [Append] on a well-formed array the length is one more,
    the new item is at the old length, and every index that was in range
    gives the item it gave before; an array that was appended to is true. *)
Theorem xarray_Append_Index (h : Go.Store XValue) (a : Go.Slice) (v : XValue) :
  Go.wellFormed h a ->
  xarray_Length (Go.elements (fst (xarray_Append growCap h a v))
                             (snd (xarray_Append growCap h a v)))
  = xarray_Length (Go.elements h a) + 1
  /\ xarray_Index (Go.elements (fst (xarray_Append growCap h a v))
                               (snd (xarray_Append growCap h a v)))
                  (xarray_Length (Go.elements h a))
     = Go.Returned v
  /\ (forall i,
         0 <= i < xarray_Length (Go.elements h a) ->
         xarray_Index (Go.elements (fst (xarray_Append growCap h a v))
                                   (snd (xarray_Append growCap h a v))) i
         = xarray_Index (Go.elements h a) i)
  /\ xarray_ToBool (fst (xarray_Append growCap h a v)) (snd (xarray_Append growCap h a v))
     = true
  /\ Go.wellFormed (fst (xarray_Append growCap h a v)) (snd (xarray_Append growCap h a v)).
Proof.
  intros Hwf. unfold xarray_Append, xarray_ToBool, xarray_Length, xarray_Index.
  destruct (sliceFacts.append_spec XNil growCap h a v 0%nat Hwf)
    as (Hwf' & _ & _ & _ & _ & Hel); [right; lia|lia|].
  rewrite Hel. repeat split.
  - unfold Go.lenOf. rewrite length_app. cbn [List.length]. lia.
  - apply index_app_last.
  - intros i Hi. now apply index_app_left.
  - unfold Go.lenOf. rewrite length_app. cbn [List.length]. apply Z.gtb_lt. lia.
  - apply Hwf'.
  - apply Hwf'.
Qed.

(** X14.  Whatever it is given, [ToInteger] returns an integer of the
    32-bit range, and 0 whenever it returns an error. *)
Theorem ToInteger_is_int32 x :
  - 2 ^ 31 <= fst (ToInteger Describe x) <= 2 ^ 31 - 1
  /\ (snd (ToInteger Describe x) <> None -> fst (ToInteger Describe x) = 0).
Proof.
  unfold ToInteger. destruct (ToXNumber Describe x) as [number [err|]]; cbn [fst snd].
  - split; [lia|reflexivity].
  - change Go.MinInt32 with (- 2 ^ 31). change Go.MaxInt32 with (2 ^ 31 - 1).
    destruct (Z.ltb_spec (IntPart number) (- 2 ^ 31));
      [|destruct (Z.gtb_spec (IntPart number) (2 ^ 31 - 1))]; cbn [orb fst snd].
    + split; [lia|reflexivity].
    + split; [lia|reflexivity].
    + split; [lia|]. intros Hsome. now elim Hsome.
Qed.

(** X15.  For an integer of the 64-bit range of [int], when the integer
    part of the decimal made from it is that integer, [ToInteger] gives back
    the integer [NewXNumberFromInt] was given if it is in the 32-bit range,
    and the range error if not. *)
Theorem ToInteger_NewXNumberFromInt i :
  - 2 ^ 63 <= i <= 2 ^ 63 - 1 ->
  BigInt (decimal_New i 0) = i ->
  (- 2 ^ 31 <= i <= 2 ^ 31 - 1 ->
   ToInteger Describe (NewXNumberFromInt decimal_New i) = (i, None))
  /\ (~ (- 2 ^ 31 <= i <= 2 ^ 31 - 1) ->
      ToInteger Describe (NewXNumberFromInt decimal_New i)
      = (0, Some (rangeError (decimal_New i 0)))).
Proof.
  intros H64 Hint. unfold ToInteger, NewXNumberFromInt, NewXNumber, ToXNumber, IntPart.
  cbn [IsNil negb]. rewrite Hint, (GoFacts.int64_fits i H64).
  change Go.MinInt32 with (- 2 ^ 31). change Go.MaxInt32 with (2 ^ 31 - 1).
  destruct (Z.ltb_spec i (- 2 ^ 31)); [|destruct (Z.gtb_spec i (2 ^ 31 - 1))];
    cbn [orb]; split; intros; try reflexivity; lia.
Qed.

End Facts.


Lemma xdict_Resolve_cases_witness :
  xdict_Resolve (decimal := decimalModel) (fun _ key => NewXErrorf ("no " ++ key))
    [("a", Spec.number 1 0)] "b"
  = XErrorValue (NewXErrorf "no b")
  /\ xdict_Resolve (decimal := decimalModel) (fun _ key => NewXErrorf ("no " ++ key))
       [("a", XNil)] "a"
     = XNil.
Proof.
  split.
  - apply (proj1 (xdict_Resolve_cases (decimal := decimalModel)
                    (fun _ key => NewXErrorf ("no " ++ key)) [("a", Spec.number 1 0)] "b")).
    cbn. intuition discriminate.
  - apply (proj1 (proj2 (xdict_Resolve_cases (decimal := decimalModel)
                           (fun _ key => NewXErrorf ("no " ++ key)) [("a", XNil)] "a"))).
    cbn. auto.
Defined.

Lemma xdict_ToXText_Put_witness :
  Go.mapOutcome
    (fun d' => xdict_ToXText (decimal := decimalModel) toXTextModel errorMessage
                 (Go.mapEntries d'))
    (Go.andThen (Put NewEmptyXDict "b" (Spec.number 1 0))
                (fun d' => Put d' "a" (Spec.number 2 0)))
  = Go.mapOutcome
      (fun d' => xdict_ToXText (decimal := decimalModel) toXTextModel errorMessage
                   (Go.mapEntries d'))
      (Go.andThen (Put NewEmptyXDict "a" (Spec.number 2 0))
                  (fun d' => Put d' "b" (Spec.number 1 0)))
  /\ Go.andThen (Put (decimal := decimalModel) (NewXDict None) "b" (Spec.number 1 0))
                (fun d' => Put d' "a" (Spec.number 2 0))
     = Go.Panicked (Go.PanicMessage "assignment to entry in nil map").
Proof.
  split.
  - apply (proj1 (xdict_ToXText_Put (decimal := decimalModel) toXTextModel errorMessage
                    NewEmptyXDict "b" "a" (Spec.number 1 0) (Spec.number 2 0))).
    discriminate.
  - apply (proj1 (proj2 (proj2 (proj2
             (xdict_ToXText_Put (decimal := decimalModel) toXTextModel errorMessage
                (NewXDict None) "b" "a" (Spec.number 1 0) (Spec.number 2 0)))))).
    reflexivity.
Defined.

Lemma xarray_Append_Index_witness :
  xarray_Index (decimal := decimalModel)
    (Go.elements (fst (xarray_Append doubling [[Spec.number 1 0]] (Go.mkSlice 0 0 1 1)
                         (Spec.number 2 0)))
                 (snd (xarray_Append doubling [[Spec.number 1 0]] (Go.mkSlice 0 0 1 1)
                         (Spec.number 2 0))))
    1
  = Go.Returned (Spec.number 2 0).
Proof.
  apply (proj1 (proj2 (xarray_Append_Index (decimal := decimalModel) doubling
                         [[Spec.number 1 0]] (Go.mkSlice 0 0 1 1) (Spec.number 2 0)
                         ltac:(split; [cbn; lia|right; split; cbn; lia])))).
Defined.

Lemma ToInteger_is_int32_witness :
  fst (ToInteger (decimal := decimalModel) describeModel (XText "99999999999")) = 0.
Proof.
  apply (proj2 (ToInteger_is_int32 (decimal := decimalModel) describeModel
                  (XText "99999999999"))).
  discriminate.
Defined.

Lemma ToInteger_NewXNumberFromInt_witness :
  ToInteger (decimal := decimalModel) describeModel
    (NewXNumberFromInt (decimal := decimalModel) newDec (-15)) = (-15, None)
  /\ ToInteger (decimal := decimalModel) describeModel
       (NewXNumberFromInt (decimal := decimalModel) newDec 4294967296)
     = (0, Some (rangeError (decimal := decimalModel) (newDec 4294967296 0))).
Proof.
  split.
  - apply (proj1 (ToInteger_NewXNumberFromInt (decimal := decimalModel) describeModel newDec
                    (-15) ltac:(lia) eq_refl)).
    lia.
  - apply (proj2 (ToInteger_NewXNumberFromInt (decimal := decimalModel) describeModel newDec
                    4294967296 ltac:(lia) eq_refl)).
    lia.
Defined.

End dictFacts.

(** ** More on URN lists *)

Module urnFacts.
Import Go flows Spec.
Local Open Scope list_scope.

Lemma filter_all {X : Type} (p : X -> bool) l :
  Forall (fun x => p x = true) l -> filter p l = l.
Proof.
  induction 1 as [|x l Hx _ IH]; cbn [filter]; [reflexivity|]. now rewrite Hx, IH.
Qed.

Lemma filter_none {X : Type} (p : X -> bool) l :
  Forall (fun x => p x = false) l -> filter p l = [].
Proof.
  induction 1 as [|x l Hx _ IH]; cbn [filter]; [reflexivity|]. now rewrite Hx.
Qed.

Lemma filter_Forall {X : Type} (p : X -> bool) l : Forall (fun x => p x = true) (filter p l).
Proof. apply Forall_forall. intros x Hx. now apply filter_In in Hx. Qed.

Section Facts.
Variable Scheme : string -> string.
Variable growCap : nat -> nat.
Variable ToLower : string -> string.
Variable IsValidScheme : string -> bool.

(** The loop of [WithScheme] with what it keeps: the new list is well
    formed, and sits on a new array when it has one. *)
Lemma rangeWithScheme_kept (h0 : Store) (l : URNList) scheme :
  wellFormed h0 l ->
  Forall (fun u => u <> None) (elements h0 l) ->
  forall n i h matching,
    (i + n = sLen l)%nat ->
    (List.length h0 <= List.length h)%nat ->
    (forall a, (a < List.length h0)%nat -> arrayOf h a = arrayOf h0 a) ->
    wellFormed h matching ->
    (sCap matching = 0 \/ List.length h0 <= sArray matching)%nat ->
    exists h' matching',
      rangeWithScheme Scheme growCap n (Z.of_nat i) l scheme h matching
      = Returned (h', matching')
      /\ (List.length h0 <= List.length h')%nat
      /\ (forall a, (a < List.length h0)%nat -> arrayOf h' a = arrayOf h0 a)
      /\ wellFormed h' matching'
      /\ elements h' matching'
         = elements h matching ++ filter (hasScheme Scheme scheme) (skipn i (elements h0 l)).
Proof using Type.
  intros Hwf Hsome.
  pose proof (sliceFacts.elements_length h0 l Hwf) as Hel.
  induction n as [|n IH]; intros i h matching Hi Hlen Hkeep Hm Hfresh.
  - exists h, matching. cbn [rangeWithScheme]. repeat split; auto; try apply Hm.
    rewrite skipn_all2 by lia. cbn [filter]. now rewrite app_nil_r.
  - cbn [rangeWithScheme]. unfold read.
    rewrite (flowsFacts.elements_source h0 h l Hwf Hkeep).
    destruct (GoFacts.index_in_range (elements h0 l) (Z.of_nat i)) as (u & Hu & Hnth).
    { unfold lenOf. lia. }
    rewrite Hu. rewrite Nat2Z.id in Hnth.
    rewrite (flowsFacts.skipn_nth_error _ _ _ Hnth).
    assert (Hnn : u <> None).
    { rewrite Forall_forall in Hsome. apply Hsome. eapply nth_error_In; eauto. }
    destruct u as [u|]; [clear Hnn|now elim Hnn].
    replace (Z.of_nat i + 1)%Z with (Z.of_nat (S i)) by lia.
    cbn [filter hasScheme].
    destruct (String.eqb (Scheme (URN u)) scheme).
    + unfold appendURN.
      pose proof (sliceFacts.append_spec None growCap h matching (Some u)
                    (List.length h0) Hm Hfresh Hlen)
        as (Hwf' & Hfresh' & _ & Hlen' & Hkeep' & Hel').
      destruct (append None growCap h matching (Some u)) as [h1 m1].
      cbn [fst snd] in *.
      destruct (IH (S i) h1 m1) as (h' & m' & Hr & Hl & Hk & Hw & He); auto; try lia.
      { intros a Ha. rewrite Hkeep' by exact Ha. auto. }
      exists h', m'. repeat split; auto; try apply Hw.
      rewrite He, Hel', <- app_assoc. reflexivity.
    + apply IH; auto. lia.
Qed.

Lemma WithScheme_kept (h : Store) (l : URNList) scheme :
  wellFormed h l ->
  Forall (fun u => u <> None) (elements h l) ->
  exists h' matching,
    WithScheme Scheme growCap h l scheme = Returned (h', matching)
    /\ wellFormed h' matching
    /\ elements h' matching = filter (hasScheme Scheme scheme) (elements h l)
    /\ elements h' l = elements h l.
Proof using Type.
  intros Hwf Hsome. unfold WithScheme.
  destruct (rangeWithScheme_kept h l scheme Hwf Hsome (sLen l) 0%nat h nilSlice)
    as (h' & m' & Hr & Hl & Hk & Hw & He); auto.
  - split; cbn; auto.
  - exists h', m'. change (Z.of_nat 0) with 0%Z in Hr. repeat split; auto; try apply Hw.
    now apply flowsFacts.elements_source.
Qed.

Lemma hasScheme_some scheme (l : list (option ContactURN)) :
  Forall (fun u => hasScheme Scheme scheme u = true) l -> Forall (fun u => u <> None) l.
Proof using Type.
  apply Forall_impl. intros [u|] H; [discriminate|discriminate H].
Qed.

(** *** Further properties of URN lists *)

(** X16.  What [WithScheme] returns is a well-formed list of URNs of the
    scheme; asking it for the same scheme again gives the same URNs, and
    asking it for another scheme gives none. *)
Theorem WithScheme_twice (h : Store) (l : URNList) scheme :
  wellFormed h l ->
  Forall (fun u => u <> None) (elements h l) ->
  exists h1 m1,
    WithScheme Scheme growCap h l scheme = Returned (h1, m1)
    /\ wellFormed h1 m1
    /\ Forall (fun u => hasScheme Scheme scheme u = true) (elements h1 m1)
    /\ (exists h2 m2,
           WithScheme Scheme growCap h1 m1 scheme = Returned (h2, m2)
           /\ elements h2 m2 = elements h1 m1)
    /\ (forall other,
           other <> scheme ->
           exists h3 m3,
             WithScheme Scheme growCap h1 m1 other = Returned (h3, m3)
             /\ elements h3 m3 = []).
Proof using Type.
  intros Hwf Hsome.
  destruct (WithScheme_kept h l scheme Hwf Hsome) as (h1 & m1 & Hr & Hw & He & _).
  assert (Hall : Forall (fun u => hasScheme Scheme scheme u = true) (elements h1 m1)).
  { rewrite He. apply filter_Forall. }
  pose proof (hasScheme_some _ _ Hall) as Hsome1.
  exists h1, m1. repeat split; auto; try apply Hw.
  - destruct (WithScheme_kept h1 m1 scheme Hw Hsome1) as (h2 & m2 & Hr2 & _ & He2 & _).
    exists h2, m2. split; [exact Hr2|]. rewrite He2. now apply filter_all.
  - intros other Hne.
    destruct (WithScheme_kept h1 m1 other Hw Hsome1) as (h3 & m3 & Hr3 & _ & He3 & _).
    exists h3, m3. split; [exact Hr3|]. rewrite He3. apply filter_none.
    eapply Forall_impl; [|exact Hall]. intros [u|] Hu; [|reflexivity].
    cbn [hasScheme] in *. apply String.eqb_eq in Hu. apply String.eqb_neq. congruence.
Qed.

(** X17.  The clone of a well-formed list shows the same URNs on a new
    array that is exactly as long as the list; the list itself and every
    array of the store are as before, also after something is appended to
    the clone. *)
Theorem clone_is_a_copy (h : Store) (l : URNList) :
  wellFormed h l ->
  elements (fst (clone h l)) (snd (clone h l)) = elements h l
  /\ elements (fst (clone h l)) l = elements h l
  /\ wellFormed (fst (clone h l)) (snd (clone h l))
  /\ sArray (snd (clone h l)) = List.length h
  /\ sCap (snd (clone h l)) = sLen l
  /\ (forall a, (a < List.length h)%nat -> arrayOf (fst (clone h l)) a = arrayOf h a)
  /\ (forall u,
         elements (fst (appendURN growCap (fst (clone h l)) (snd (clone h l)) u))
                  (snd (appendURN growCap (fst (clone h l)) (snd (clone h l)) u))
         = elements h l ++ [u]
         /\ elements (fst (appendURN growCap (fst (clone h l)) (snd (clone h l)) u)) l
            = elements h l).
Proof using Type.
  intros Hwf.
  pose proof (sliceFacts.elements_length h l Hwf) as Hel.
  unfold clone. cbn [fst snd]. rewrite Hel.
  replace (skipn (sLen l) (repeat (@None ContactURN) (sLen l))) with (@nil (option ContactURN))
    by (rewrite skipn_all2; [reflexivity|rewrite repeat_length; lia]).
  rewrite app_nil_r.
  set (h' := h ++ [elements h l]). set (c := mkSlice (List.length h) 0 (sLen l) (sLen l)).
  assert (Hkeep : forall a, (a < List.length h)%nat -> arrayOf h' a = arrayOf h a).
  { intros a Ha. unfold arrayOf, h'. now apply app_nth1. }
  assert (Hnew : arrayOf h' (List.length h) = elements h l).
  { unfold arrayOf, h'. rewrite app_nth2 by lia. now rewrite Nat.sub_diag. }
  assert (Hc : elements h' c = elements h l).
  { unfold elements at 1. cbn [sLen sArray sOffset c]. rewrite Hnew. cbn [skipn].
    apply firstn_all2. lia. }
  assert (Hl : elements h' l = elements h l)
    by (apply flowsFacts.elements_source; auto).
  assert (Hwc : wellFormed h' c).
  { split; cbn; [lia|]. right. unfold h'. rewrite length_app. cbn [List.length].
    split; [lia|]. fold h'. rewrite Hnew. lia. }
  repeat split; auto; try apply Hwc.
  - unfold appendURN.
    destruct (sliceFacts.append_spec None growCap h' c u (List.length h) Hwc)
      as (_ & _ & _ & _ & _ & He); [right; cbn; lia|unfold h'; rewrite length_app; lia|].
    rewrite <- Hc. exact He.
  - unfold appendURN.
    destruct (sliceFacts.append_spec None growCap h' c u (List.length h) Hwc)
      as (_ & _ & _ & _ & Hk & _); [right; cbn; lia|unfold h'; rewrite length_app; lia|].
    apply flowsFacts.elements_source; [exact Hwf|].
    intros a Ha. rewrite Hk by exact Ha. now apply Hkeep.
Qed.

(** X18.  [Resolve] on an URN list lowers the key: when that is not a
    valid scheme it returns the error "unknown URN scheme: " with the key
    as it was written and touches nothing; when it is, it returns the URNs
    of that scheme, in order, and the list is as before. *)
Theorem URNList_Resolve (h : Store) (l : URNList) key :
  (IsValidScheme (ToLower key) = false ->
   Resolve Scheme growCap ToLower IsValidScheme h l key
   = Returned (h, ResolvedError ("unknown URN scheme: " ++ key)%string))
  /\ (IsValidScheme (ToLower key) = true ->
      wellFormed h l ->
      Forall (fun u => u <> None) (elements h l) ->
      exists h' matching,
        Resolve Scheme growCap ToLower IsValidScheme h l key
        = Returned (h', ResolvedList matching)
        /\ elements h' matching = filter (hasScheme Scheme (ToLower key)) (elements h l)
        /\ elements h' l = elements h l).
Proof using Type.
  unfold Resolve. split.
  - intros ->. reflexivity.
  - intros -> Hwf Hsome. cbn [negb].
    destruct (WithScheme_kept h l (ToLower key) Hwf Hsome) as (h' & m & Hr & _ & He & Hl).
    exists h', m. rewrite Hr. auto.
Qed.

End Facts.

Lemma sample_wellFormed : wellFormed sampleStore sampleURNs.
Proof. split; [cbn; lia|right; split; cbn; lia]. Defined.

Lemma sample_no_nil : Forall (fun u : option ContactURN => u <> None) (elements sampleStore sampleURNs).
Proof. cbn. repeat constructor; discriminate. Defined.

Lemma WithScheme_twice_witness :
  exists h1 m1,
    WithScheme schemeModel doubling sampleStore sampleURNs "tel" = Returned (h1, m1)
    /\ exists h3 m3,
        WithScheme schemeModel doubling h1 m1 "mailto" = Returned (h3, m3)
        /\ elements h3 m3 = [].
Proof.
  destruct (WithScheme_twice schemeModel doubling sampleStore sampleURNs "tel"
              sample_wellFormed sample_no_nil)
    as (h1 & m1 & Hr & _ & _ & _ & Hother).
  exists h1, m1. split; [exact Hr|]. apply Hother. discriminate.
Defined.

Lemma clone_is_a_copy_witness :
  elements (fst (clone sampleStore sampleURNs)) (snd (clone sampleStore sampleURNs))
  = [urn "tel:+1"; urn "mailto:x"; urn "tel:+2"].
Proof.
  exact (proj1 (clone_is_a_copy doubling sampleStore sampleURNs sample_wellFormed)).
Defined.

Lemma URNList_Resolve_witness :
  Resolve schemeModel doubling (fun s => s) (fun s => String.eqb s "tel")
    sampleStore sampleURNs "fax"
  = Returned (sampleStore, ResolvedError "unknown URN scheme: fax").
Proof.
  apply (proj1 (URNList_Resolve schemeModel doubling (fun s => s)
                  (fun s => String.eqb s "tel") sampleStore sampleURNs "fax")).
  reflexivity.
Defined.

End urnFacts.

(** ** Results *)

Module resultsFacts.
Import Go results Spec.
Local Open Scope list_scope.

Lemma nth_setNth_same_map (h : Store) a m :
  (a < List.length h)%nat -> nth a (setNth a m h) [] = m.
Proof. apply sliceFacts.nth_setNth_same. Qed.

(** Assigning the entries of a map with unique keys one by one gives a map
    with the same results. *)
Lemma mapIndex_fold (l : Map Result) : forall m k,
  NoDup (mapKeys l) ->
  mapIndex (fold_left (fun m kv => mapAssign m (fst kv) (snd kv)) l m) k
  = match mapIndex l k with
    | Some v => Some v
    | None => mapIndex m k
    end.
Proof.
  induction l as [|[k0 v0] l IH]; intros m k Hnd; cbn [fold_left mapIndex fst snd].
  - reflexivity.
  - unfold mapKeys in Hnd. cbn [map fst] in Hnd. inversion Hnd as [|? ? Hk Hnd']; subst.
    rewrite IH by exact Hnd'.
    destruct (String.eqb_spec k k0) as [->|Hne].
    + apply miscFacts.mapIndex_keys in Hk. rewrite Hk.
      apply resolverFacts.mapIndex_assign_same.
    + destruct (mapIndex l k); [reflexivity|].
      now apply resolverFacts.mapIndex_assign_other.
Qed.

Section Facts.
Variable Snakify : string -> string.

(** X19.  [Save] on a map puts the result under the snakified name: [Get]
    with that key gives the result saved last, every other key and every
    other map give what they gave before.  On the nil map [Save] aborts and
    [Get] gives nothing. *)
Theorem Save_Get (h : Store) (a : nat) (result : Result) :
  (a < List.length h)%nat ->
  exists h',
    Save Snakify h (Some a) result = Returned h'
    /\ List.length h' = List.length h
    /\ Get h' (Some a) (Snakify (Name result)) = Some result
    /\ (forall key, key <> Snakify (Name result) -> Get h' (Some a) key = Get h (Some a) key)
    /\ (forall b key, b <> a -> Get h' (Some b) key = Get h (Some b) key)
    /\ (forall other,
           Snakify (Name other) = Snakify (Name result) ->
           exists h'',
             Save Snakify h' (Some a) other = Returned h''
             /\ Get h'' (Some a) (Snakify (Name result)) = Some other)
    /\ Save Snakify h None result = Panicked (PanicMessage "assignment to entry in nil map")
    /\ (forall key, Get h None key = None).
Proof using Type.
  intros Ha. unfold Save, Get, entries.
  eexists. split; [reflexivity|].
  rewrite sliceFacts.setNth_length. repeat split.
  - rewrite nth_setNth_same_map by exact Ha. apply resolverFacts.mapIndex_assign_same.
  - intros key Hne. rewrite nth_setNth_same_map by exact Ha.
    now apply resolverFacts.mapIndex_assign_other.
  - intros b key Hne. rewrite sliceFacts.nth_setNth_other by congruence. reflexivity.
  - intros other Hsame. eexists. split; [reflexivity|].
    rewrite nth_setNth_same_map by (rewrite sliceFacts.setNth_length; exact Ha).
    rewrite Hsame. apply resolverFacts.mapIndex_assign_same.
Qed.

(** X20.  The clone of a map gives for every key what the map gives, and
    is another map: saving into the clone leaves the map as it was.  The
    clone of the nil map is an empty map that can be saved into. *)
Theorem Clone_is_independent (h : Store) (a : nat) :
  (a < List.length h)%nat ->
  NoDup (mapKeys (entries h (Some a))) ->
  snd (Clone h (Some a)) = Some (List.length h)
  /\ (forall key,
         Get (fst (Clone h (Some a))) (snd (Clone h (Some a))) key = Get h (Some a) key)
  /\ (forall key, Get (fst (Clone h (Some a))) (Some a) key = Get h (Some a) key)
  /\ (forall result,
         exists h',
           Save Snakify (fst (Clone h (Some a))) (snd (Clone h (Some a))) result
           = Returned h'
           /\ Get h' (snd (Clone h (Some a))) (Snakify (Name result)) = Some result
           /\ (forall key, Get h' (Some a) key = Get h (Some a) key))
  /\ (forall result,
         exists h',
           Save Snakify (fst (Clone h None)) (snd (Clone h None)) result = Returned h'
           /\ Get h' (snd (Clone h None)) (Snakify (Name result)) = Some result).
Proof using Type.
  intros Ha Hnd. unfold Clone. cbn [fst snd].
  set (copy := fold_left (fun m kv => mapAssign m (fst kv) (snd kv)) (entries h (Some a)) []).
  assert (Hnew : forall m, nth (List.length h) (h ++ [m]) [] = m).
  { intros m. rewrite app_nth2 by lia. now rewrite Nat.sub_diag. }
  assert (Hold : forall m, nth a (h ++ [m]) [] = nth a h []).
  { intros m. now apply app_nth1. }
  repeat split.
  - intros key. unfold Get. cbn [entries]. rewrite Hnew. unfold copy.
    rewrite mapIndex_fold by exact Hnd. cbn [entries].
    destruct (mapIndex (nth a h []) key); reflexivity.
  - intros key. unfold Get. cbn [entries]. now rewrite Hold.
  - intros result. unfold Save. eexists. split; [reflexivity|]. split.
    + unfold Get. cbn [entries].
      rewrite nth_setNth_same_map by (rewrite length_app; cbn [List.length]; lia).
      apply resolverFacts.mapIndex_assign_same.
    + intros key. unfold Get. cbn [entries].
      rewrite sliceFacts.nth_setNth_other by lia. now rewrite Hold.
  - intros result. unfold Save. eexists. split; [reflexivity|].
    unfold Get. cbn [entries fold_left].
    rewrite nth_setNth_same_map by (rewrite length_app; cbn [List.length]; lia).
    apply resolverFacts.mapIndex_assign_same.
Qed.

End Facts.

Section ContextFacts.
Context {decimal : types.DecimalLibrary}.
Variable JSONToXValue : string -> types.XValue.

(** X21.  The context of a result holds each of its eight keys once; its
    localized category is the one of the result, or the category when the
    result has none; the simple context holds the value and the category
    only, with what the context holds for them. *)
Theorem Result_Context_keys (r : Result) :
  NoDup (types.Keys (Result_Context JSONToXValue r))
  /\ List.length (Result_Context JSONToXValue r) = 8%nat
  /\ (CategoryLocalized r <> EmptyString ->
      types.mapGet (Result_Context JSONToXValue r) "category_localized"
      = types.XText (CategoryLocalized r))
  /\ (CategoryLocalized r = EmptyString ->
      types.mapGet (Result_Context JSONToXValue r) "category_localized"
      = types.mapGet (Result_Context JSONToXValue r) "category")
  /\ types.Keys (Result_SimpleContext r) = ["value"%string; "category"%string]
  /\ (forall key,
         In key (types.Keys (Result_SimpleContext r)) ->
         types.mapGet (Result_SimpleContext r) key
         = types.mapGet (Result_Context JSONToXValue r) key).
Proof using Type.
  split; [|split; [|split; [|split; [|split]]]].
  - cbn. repeat constructor; cbn; intuition discriminate.
  - reflexivity.
  - intros Hne. cbn. apply String.eqb_neq in Hne. now rewrite Hne.
  - intros He. cbn. now rewrite He.
  - reflexivity.
  - intros key [<-|[<-|[]]]; reflexivity.
Qed.

End ContextFacts.

Lemma Save_Get_witness :
  exists h',
    Save (fun s => s) [[]] (Some 0%nat) sampleResult
    = Returned h'
    /\ Get h' (Some 0%nat) "color" = Some sampleResult.
Proof.
  destruct (Save_Get (fun s => s) [[]] 0%nat
              sampleResult ltac:(cbn; lia))
    as (h' & Hs & _ & Hg & _).
  exists h'. split; assumption.
Defined.

Lemma Clone_is_independent_witness :
  Get (fst (Clone [[("color", sampleResult)]] (Some 0%nat)))
      (snd (Clone [[("color", sampleResult)]] (Some 0%nat)))
      "color"
  = Some sampleResult.
Proof.
  exact (proj1 (proj2 (Clone_is_independent (fun s => s)
                         [[("color", sampleResult)]] 0%nat
                         ltac:(cbn; lia)
                         ltac:(cbn; repeat constructor; intros []))) "color").
Defined.

Lemma Result_Context_keys_witness :
  types.mapGet (Result_Context (decimal := decimalModel) (fun _ => types.XNil)
                  sampleResult) "category_localized"
  = types.XText "Red".
Proof.
  apply (proj1 (proj2 (proj2 (proj2
           (Result_Context_keys (decimal := decimalModel) (fun _ => types.XNil)
              sampleResult))))).
  reflexivity.
Defined.

End resultsFacts.

(** ** The call_webhook action *)

Module webhookFacts.
Import actions.
Local Open Scope list_scope.

(** X22.  [call] asks for the status with the resthook flag off, and so
    never gets "subscriber gone": a response with status 410 is a response
    error there.  With the flag on, "subscriber gone" is the status exactly
    of a response with status 410 that came without a transport error. *)
Theorem callStatus_resthook call err :
  callStatus call err false <> CallStatusSubscriberGone
  /\ (forall response,
         Response_ call = Some response -> err = None -> StatusCode response = 410 ->
         callStatus call err false = CallStatusResponseError)
  /\ (callStatus call err true = CallStatusSubscriberGone <->
      exists response,
        Response_ call = Some response /\ err = None /\ StatusCode response = 410).
Proof.
  unfold callStatus, StatusGone. repeat split.
  - destruct (Response_ call) as [response|]; destruct err; try discriminate.
    cbn [andb]. destruct (Z.quot (StatusCode response) 100 =? 2); discriminate.
  - intros response -> -> ->. reflexivity.
  - destruct (Response_ call) as [response|]; destruct err; try discriminate.
    cbn [andb]. destruct (Z.eqb_spec (StatusCode response) 410) as [H|H].
    + eauto.
    + destruct (Z.quot (StatusCode response) 100 =? 2); discriminate.
  - intros (response & -> & -> & ->). reflexivity.
Qed.

Lemma callStatus_resthook_witness :
  callStatus {| Response_ := Some {| StatusCode := 410 |} |} None false
  = CallStatusResponseError.
Proof.
  apply (proj1 (proj2 (callStatus_resthook {| Response_ := Some {| StatusCode := 410 |} |} None))
           {| StatusCode := 410 |}); reflexivity.
Defined.

Section Facts.
Variable EvaluateTemplate : string -> string * option string.
Variable EvaluateTemplateText : string -> string * option string.
Variable TrimSpace : string -> string.
Variable ToUpper : string -> string.
Variable RuneCountInString : string -> Z.
Variable urlParses : string -> bool.
Variable call : string -> string -> string -> list Event * option string.

(** X23.  [Execute] makes the call only with a URL that, evaluated and
    trimmed, is not empty and is valid (at most 2048 characters, and
    parsable); otherwise it logs one error event and returns no error.  A
    failed evaluation of the URL or of the body is logged and does not stop
    it; an empty body is not evaluated; the method goes out in upper case;
    the events logged before stay in front; and the error it returns is the
    one of the call. *)
Theorem Execute_cases (a : CallWebhookAction) (log : list Event) :
  (TrimSpace (fst (EvaluateTemplate (URL a))) = EmptyString ->
   Execute EvaluateTemplate EvaluateTemplateText TrimSpace ToUpper RuneCountInString
     urlParses call a log
   = (logError log (snd (EvaluateTemplate (URL a)))
        ++ [NewError "webhook URL evaluated to empty string"], None))
  /\ (TrimSpace (fst (EvaluateTemplate (URL a))) <> EmptyString ->
      isValidURL RuneCountInString urlParses (TrimSpace (fst (EvaluateTemplate (URL a))))
      = false ->
      Execute EvaluateTemplate EvaluateTemplateText TrimSpace ToUpper RuneCountInString
        urlParses call a log
      = (logError log (snd (EvaluateTemplate (URL a)))
           ++ [NewError ("webhook URL evaluated to an invalid URL: '"
                         ++ TrimSpace (fst (EvaluateTemplate (URL a))) ++ "'")%string],
         None))
  /\ (TrimSpace (fst (EvaluateTemplate (URL a))) <> EmptyString ->
      isValidURL RuneCountInString urlParses (TrimSpace (fst (EvaluateTemplate (URL a))))
      = true ->
      Body a = EmptyString ->
      Execute EvaluateTemplate EvaluateTemplateText TrimSpace ToUpper RuneCountInString
        urlParses call a log
      = (logError log (snd (EvaluateTemplate (URL a)))
           ++ fst (call (TrimSpace (fst (EvaluateTemplate (URL a))))
                        (ToUpper (Method a)) EmptyString),
         snd (call (TrimSpace (fst (EvaluateTemplate (URL a))))
                   (ToUpper (Method a)) EmptyString)))
  /\ (TrimSpace (fst (EvaluateTemplate (URL a))) <> EmptyString ->
      isValidURL RuneCountInString urlParses (TrimSpace (fst (EvaluateTemplate (URL a))))
      = true ->
      Body a <> EmptyString ->
      Execute EvaluateTemplate EvaluateTemplateText TrimSpace ToUpper RuneCountInString
        urlParses call a log
      = (logError (logError log (snd (EvaluateTemplate (URL a))))
                  (snd (EvaluateTemplateText (Body a)))
           ++ fst (call (TrimSpace (fst (EvaluateTemplate (URL a))))
                        (ToUpper (Method a)) (fst (EvaluateTemplateText (Body a)))),
         snd (call (TrimSpace (fst (EvaluateTemplate (URL a))))
                   (ToUpper (Method a)) (fst (EvaluateTemplateText (Body a))))))
  /\ (forall u, RuneCountInString u > 2048 -> isValidURL RuneCountInString urlParses u = false)
  /\ (exists events,
         fst (Execute EvaluateTemplate EvaluateTemplateText TrimSpace ToUpper
                RuneCountInString urlParses call a log)
         = log ++ events).
Proof using Type.
  unfold Execute.
  destruct (EvaluateTemplate (URL a)) as [url err]. cbn [fst snd].
  assert (Hpre : forall l e, exists events, logError l e = l ++ events).
  { intros l [e|]; cbn [logError]; [eauto|]. exists []. now rewrite app_nil_r. }
  split; [|split; [|split; [|split; [|split]]]].
  - intros ->. reflexivity.
  - intros Hne Hinv. apply String.eqb_neq in Hne. rewrite Hne, Hinv. reflexivity.
  - intros Hne Hval Hbody. apply String.eqb_neq in Hne. rewrite Hne, Hval, Hbody.
    cbn [negb String.eqb].
    destruct (call (TrimSpace url) (ToUpper (Method a)) EmptyString). reflexivity.
  - intros Hne Hval Hbody. apply String.eqb_neq in Hne, Hbody. rewrite Hne, Hval, Hbody.
    cbn [negb]. destruct (EvaluateTemplateText (Body a)) as [body berr]. cbn [fst snd].
    destruct (call (TrimSpace url) (ToUpper (Method a)) body). reflexivity.
  - intros u Hu. unfold isValidURL. apply Z.gt_lt, Z.gtb_lt in Hu. now rewrite Hu.
  - destruct (Hpre log err) as [e1 He1]. rewrite He1.
    destruct (String.eqb (TrimSpace url) EmptyString).
    { cbn [fst]. rewrite <- app_assoc. eauto. }
    destruct (negb (isValidURL RuneCountInString urlParses (TrimSpace url))).
    { cbn [fst]. rewrite <- app_assoc. eauto. }
    destruct (negb (String.eqb (Body a) EmptyString)).
    + destruct (EvaluateTemplateText (Body a)) as [body berr].
      destruct (Hpre (log ++ e1) berr) as [e2 He2]. rewrite He2.
      destruct (call (TrimSpace url) (ToUpper (Method a)) body). cbn [fst].
      rewrite <- !app_assoc. eauto.
    + destruct (call (TrimSpace url) (ToUpper (Method a)) (Body a)). cbn [fst].
      rewrite <- app_assoc. eauto.
Qed.

End Facts.

Lemma Execute_cases_witness :
  Execute (fun t => (t, Some "missing variable")) (fun t => (t, None))
    (fun s => s) (fun s => s) (fun s => Go.len s) (fun _ => true)
    (fun url method body => ([Logged url], None))
    (NewCallWebhook "GET" EmptyString [] EmptyString EmptyString) []
  = ([NewError "missing variable"; NewError "webhook URL evaluated to empty string"], None).
Proof.
  apply (proj1 (Execute_cases (fun t => (t, Some "missing variable")) (fun t => (t, None))
                  (fun s => s) (fun s => s) (fun s => Go.len s) (fun _ => true)
                  (fun url method body => ([Logged url], None))
                  (NewCallWebhook "GET" EmptyString [] EmptyString EmptyString) [])).
  reflexivity.
Defined.

End webhookFacts.


(** ** More on keys and on the name modifier *)

Module keyFacts.
Import utils Spec.

Lemma closed_trimLeft c s : closed s = true -> closed (Go.trimLeft c s) = true.
Proof.
  induction s as [|a s IH]; cbn [Go.trimLeft]; [auto|].
  intros H. destruct (Ascii.eqb a c); [|exact H].
  cbn [closed] in H. apply andb_true_iff in H as [_ H]. auto.
Qed.

Lemma closed_trimRight c s : closed s = true -> closed (Go.trimRight c s) = true.
Proof.
  induction s as [|a s IH]; cbn [Go.trimRight]; [auto|].
  intros H. cbn [closed] in H. apply andb_true_iff in H as [Ha H].
  specialize (IH H).
  destruct (Go.trimRight c s) as [|b t].
  - destruct (Ascii.eqb a c); [reflexivity|]. cbn [closed]. now rewrite Ha.
  - cbn [closed] in *. now rewrite Ha, IH.
Qed.

(** What the scan passes over has no dot and no closing bracket. *)
Lemma scanKey_closed input : forall i k c,
  0 <= i -> scanKey i input = Some (k, c) ->
  closed (String.substring 0 (Z.to_nat (k - i)) input) = true.
Proof.
  induction input as [|a input IH]; intros i k c Hi H; [discriminate|].
  cbn [scanKey] in H.
  assert (Hnext : scanKey (i + 1) input = Some (k, c) ->
                  Ascii.eqb a "]" = false -> Ascii.eqb a "." = false ->
                  closed (String.substring 0 (Z.to_nat (k - i)) (String a input)) = true).
  { intros H' H1 H2.
    pose proof (utilsFacts.scanKey_bounds input (i + 1) k c ltac:(lia) H') as [Hb _].
    replace (Z.to_nat (k - i)) with (S (Z.to_nat (k - (i + 1)))) by lia.
    cbn [String.substring closed]. rewrite H1, H2. cbn [negb andb].
    apply (IH (i + 1) k c); [lia|exact H']. }
  assert (Hhere : forall s, closed (String.substring 0 (Z.to_nat (i - i)) s) = true).
  { intros s. rewrite Z.sub_diag. destruct s; reflexivity. }
  destruct ((i =? 0) && Ascii.eqb a "[") eqn:E0.
  { apply andb_true_iff in E0 as [_ E0]. apply Ascii.eqb_eq in E0. subst a.
    now apply Hnext. }
  destruct (Ascii.eqb a "[") eqn:E1; [injection H as <- <-; apply Hhere|].
  destruct (Ascii.eqb a "]") eqn:E2; [injection H as <- <-; apply Hhere|].
  destruct (Ascii.eqb a ".") eqn:E3; [injection H as <- <-; apply Hhere|].
  now apply Hnext.
Qed.

Lemma scanKey_none_closed input : forall i, scanKey i input = None -> closed input = true.
Proof.
  induction input as [|a input IH]; intros i H; [reflexivity|].
  cbn [scanKey] in H. cbn [closed].
  destruct ((i =? 0) && Ascii.eqb a "[") eqn:E0.
  { apply andb_true_iff in E0 as [_ E0]. apply Ascii.eqb_eq in E0. subst a.
    cbn [Ascii.eqb Bool.eqb negb andb]. eauto. }
  destruct (Ascii.eqb a "["); [discriminate|].
  destruct (Ascii.eqb a "]"); [discriminate|].
  destruct (Ascii.eqb a "."); [discriminate|].
  cbn [negb andb]. eauto.
Qed.

(** X24.  The key that [popNextVariable] returns never holds a dot or a
    closing bracket. *)
Theorem popNextVariable_key_closed input : closed (fst (popNextVariable input)) = true.
Proof.
  unfold popNextVariable.
  destruct (scanKey 0 input) as [[k c]|] eqn:E; cbn [fst].
  - unfold Go.Trim. apply closed_trimRight, closed_trimLeft. unfold Go.slice.
    destruct input as [|a input]; [discriminate|].
    cbn [keyStartOf]. destruct (Ascii.eqb a "[") eqn:Ea.
    + cbn [scanKey] in E. rewrite Ea in E. cbn [Z.eqb andb] in E.
      pose proof (utilsFacts.scanKey_bounds input 1 k c ltac:(lia) E) as [Hb _].
      apply scanKey_closed in E; [|lia].
      change (Z.to_nat 1) with 1%nat. cbn [String.substring]. exact E.
    + apply scanKey_closed in E; [|lia]. rewrite Z.sub_0_r in *. exact E.
  - eapply scanKey_none_closed; eauto.
Qed.

End keyFacts.

Module nameFacts.
Import modifiers.
Local Open Scope list_scope.

Section Facts.
Variable Truncate : string -> Z -> string.

(** X25.  [Apply] logs at most one event, and the event tells the name
    the contact now has: when it reports a change the log is the old log
    and one name-changed event with the stored name, which is the truncated
    name of the modifier; when it reports none, the contact has the name of
    the modifier already, and contact and log are as they were. *)
Theorem Apply_event_matches m env contact log :
  (snd (Apply Truncate m env contact log) = true ->
   Name contact <> Name_ m
   /\ Name (fst (fst (Apply Truncate m env contact log)))
      = Truncate (Name_ m) (MaxValueLength env)
   /\ snd (fst (Apply Truncate m env contact log))
      = log ++ [NewContactNameChanged
                  (Name (fst (fst (Apply Truncate m env contact log))))])
  /\ (snd (Apply Truncate m env contact log) = false ->
      Name contact = Name_ m
      /\ fst (fst (Apply Truncate m env contact log)) = contact
      /\ snd (fst (Apply Truncate m env contact log)) = log).
Proof using Type.
  unfold Apply. destruct (String.eqb_spec (Name contact) (Name_ m)) as [He|Hne];
    cbn [negb fst snd SetName Name]; split; intros H; try discriminate; auto.
Qed.

End Facts.

Lemma Apply_event_matches_witness :
  Name (fst (fst (Apply Spec.truncateModel (NewName "Robert") {| MaxValueLength := 3 |}
                    {| Name := "Bob" |} [])))
  = "Rob"%string.
Proof.
  apply (proj1 (Apply_event_matches Spec.truncateModel (NewName "Robert")
                  {| MaxValueLength := 3 |} {| Name := "Bob" |} [])).
  reflexivity.
Defined.

End nameFacts.
